(** * cwl-svg: the interaction and geometry engine of [Workflow]

    A shallow embedding of [src/graph/workflow.ts] (class [Workflow]) and of
    the plugin interface [src/plugins/plugin.ts], with the properties of the
    viewport transform, the drag-boundary autoscroll state, the connection
    router, the selection engine and the plugin host.

    Conventions of the embedding.
    - A JavaScript [number] is an extended rational ([number] below):
      arithmetic on finite values is exact (rounding and overflow of IEEE 754
      doubles are not modelled, and zero carries no sign), while the special
      values Infinity, -Infinity and NaN follow the IEEE 754 rules.
    - [this] is an explicit record [Workflow]; a method is a function from
      the record to a [result] holding the new record, or the exception.
    - The DOM below the [<g class="workflow">] group is a list of its
      children in document order, each with the elements nested in it.
    - [eventHub.emit] appends to the log [emitted]; calls of plugin methods
      append to the log [invoked].
    - The transform of the workflow is a matrix in the record; setting the
      attribute "transform" makes its matrix anew, so that a matrix which an
      interval took before is no longer the one of the workflow. *)

From Stdlib Require Import QArith Qabs Qround Lqa Lia Sorted.
From stdpp Require Import base option list strings gmap.

Local Open Scope Q_scope.

(** ** JavaScript numbers *)

Inductive number : Type :=
| Fin (q : Q)
| PInf
| NInf
| NaN.

Declare Scope js_scope.
Delimit Scope js_scope with js.
Bind Scope js_scope with number.

Definition isNaN (a : number) : bool :=
  match a with NaN => true | _ => false end.

Definition jneg (a : number) : number :=
  match a with
  | Fin q => Fin (- q)
  | PInf => NInf
  | NInf => PInf
  | NaN => NaN
  end.

Definition jadd (a b : number) : number :=
  match a, b with
  | NaN, _ | _, NaN => NaN
  | Fin x, Fin y => Fin (x + y)
  | PInf, NInf | NInf, PInf => NaN
  | PInf, _ | _, PInf => PInf
  | NInf, _ | _, NInf => NInf
  end.

Definition jsub (a b : number) : number := jadd a (jneg b).

(** The infinity of the sign of [q] times the sign [s]; [0 * Infinity] is NaN. *)
Definition signed_inf (s : comparison) (q : Q) : number :=
  match (q ?= 0), s with
  | Eq, _ => NaN
  | Gt, Gt | Lt, Lt => PInf
  | _, _ => NInf
  end.

Definition jmul (a b : number) : number :=
  match a, b with
  | NaN, _ | _, NaN => NaN
  | Fin x, Fin y => Fin (x * y)
  | Fin x, PInf | PInf, Fin x => signed_inf Gt x
  | Fin x, NInf | NInf, Fin x => signed_inf Lt x
  | PInf, PInf | NInf, NInf => PInf
  | PInf, NInf | NInf, PInf => NInf
  end.

Definition jdiv (a b : number) : number :=
  match a, b with
  | NaN, _ | _, NaN => NaN
  | Fin x, Fin y =>
      match (y ?= 0) with
      | Eq => match (x ?= 0) with Eq => NaN | Gt => PInf | Lt => NInf end
      | _ => Fin (x / y)
      end
  | Fin _, (PInf | NInf) => Fin 0
  | PInf, Fin y => match (y ?= 0) with Lt => NInf | _ => PInf end
  | NInf, Fin y => match (y ?= 0) with Lt => PInf | _ => NInf end
  | (PInf | NInf), (PInf | NInf) => NaN
  end.

(** [a < b]: false as soon as one side is NaN. *)
Definition jlt (a b : number) : bool :=
  match a, b with
  | NaN, _ | _, NaN => false
  | Fin x, Fin y => match (x ?= y) with Lt => true | _ => false end
  | NInf, (Fin _ | PInf) => true
  | Fin _, PInf => true
  | _, _ => false
  end.

(** [a <= b]. *)
Definition jle (a b : number) : bool :=
  match a, b with
  | NaN, _ | _, NaN => false
  | Fin x, Fin y => match (x ?= y) with Gt => false | _ => true end
  | NInf, _ => true
  | _, PInf => true
  | _, _ => false
  end.

Definition jgt (a b : number) : bool := jlt b a.
Definition jge (a b : number) : bool := jle b a.

(** [a === b] on numbers. *)
Definition jeq (a b : number) : bool :=
  match a, b with
  | Fin x, Fin y => match (x ?= y) with Eq => true | _ => false end
  | PInf, PInf | NInf, NInf => true
  | _, _ => false
  end.

Definition Math_abs (a : number) : number :=
  match a with
  | Fin q => Fin (Qabs q)
  | PInf | NInf => PInf
  | NaN => NaN
  end.

Definition Math_max (a b : number) : number :=
  if isNaN a || isNaN b then NaN else if jlt a b then b else a.

Definition Math_min (a b : number) : number :=
  if isNaN a || isNaN b then NaN else if jlt b a then b else a.

(** A number in a condition: [0] and NaN are falsy. *)
Definition truthy (a : number) : bool :=
  match a with
  | Fin q => match (q ?= 0) with Eq => false | _ => true end
  | NaN => false
  | _ => true
  end.

Notation "a + b" := (jadd a b) : js_scope.
Notation "a - b" := (jsub a b) : js_scope.
Notation "a * b" := (jmul a b) : js_scope.
Notation "a / b" := (jdiv a b) : js_scope.
Notation "- a" := (jneg a) : js_scope.
Notation "a <? b" := (jlt a b) : js_scope.
Notation "a <=? b" := (jle a b) : js_scope.
Notation "a >? b" := (jgt a b) : js_scope.
Notation "a >=? b" := (jge a b) : js_scope.
Notation "a === b" := (jeq a b) (at level 70) : js_scope.

(** The same number: finite values are compared as rationals. *)
Definition same (a b : number) : Prop :=
  match a, b with
  | Fin x, Fin y => x == y
  | PInf, PInf | NInf, NInf | NaN, NaN => True
  | _, _ => False
  end.

Definition is_finite (a : number) : Prop :=
  match a with Fin _ => True | _ => False end.

(** [Number.isFinite(a)] *)
Definition isFinite (a : number) : bool :=
  match a with Fin _ => true | _ => false end.

Notation "a ≈ b" := (same a b) (at level 70).

(** ** Exceptions *)

Inductive exception : Type :=
| TypeError (what : string)
| InvalidStateError
| Error (message : string).

Inductive result (A : Type) : Type :=
| Ok (v : A)
| Throw (e : exception).

Arguments Ok {A} v.
Arguments Throw {A} e.

#[global] Instance result_ret : MRet result := fun A v => Ok v.

#[global] Instance result_bind : MBind result := fun A B k c =>
  match c with
  | Ok v => k v
  | Throw e => Throw e
  end.

(** ** Geometry of the DOM: SVGMatrix, SVGPoint, DOMRect *)

Record SVGMatrix : Type := mkMatrix {
  ma : number; mb : number; mc : number;
  md : number; me : number; mf : number
}.

Record SVGPoint : Type := mkPoint { px : number; py : number }.

Record DOMRect : Type := mkRect {
  left : number; top : number; width : number; height : number
}.

Definition right (r : DOMRect) : number := (left r + width r)%js.
Definition bottom (r : DOMRect) : number := (top r + height r)%js.

(** [matrix(1,0,0,1,0,0)] *)
Definition identity : SVGMatrix :=
  mkMatrix (Fin 1) (Fin 0) (Fin 0) (Fin 1) (Fin 0) (Fin 0).

(** [m.multiply(n)]: the transform that applies [n] first, then [m]. *)
Definition multiply (m n : SVGMatrix) : SVGMatrix :=
  mkMatrix (ma m * ma n + mc m * mb n) (mb m * ma n + md m * mb n)
           (ma m * mc n + mc m * md n) (mb m * mc n + md m * md n)
           (ma m * me n + mc m * mf n + me m)
           (mb m * me n + md m * mf n + mf m).

Definition determinant (m : SVGMatrix) : number :=
  (ma m * md m - mb m * mc m)%js.

(** [m.inverse()], which raises when the matrix has no inverse. *)
Definition inverse (m : SVGMatrix) : result SVGMatrix :=
  let det := determinant m in
  match det with
  | Fin q =>
      if (det === Fin 0)%js then Throw InvalidStateError
      else Ok (mkMatrix (md m / det) (- mb m / det)
                        (- mc m / det) (ma m / det)
                        ((mc m * mf m - md m * me m) / det)
                        ((mb m * me m - ma m * mf m) / det))
  | _ => Throw InvalidStateError
  end.

(** [p.matrixTransform(m)] *)
Definition matrixTransform (p : SVGPoint) (m : SVGMatrix) : SVGPoint :=
  mkPoint (ma m * px p + mc m * py p + me m)
          (mb m * px p + md m * py p + mf m).

(** ** The DOM below the workflow group *)

(** An element: [uid] stands for the identity of the DOM object. *)
Record Element : Type := mkElement {
  uid : nat;
  classList : gset string;
  attributes : gmap string string;
  matrix : SVGMatrix          (* transform.baseVal.getItem(0).matrix *)
}.

(** A child of [<g class="workflow">] (an edge or a node) and the elements
    nested in it (ports, labels, paths), in document order. *)
Record Child : Type := mkChild {
  self : Element;
  nested : list Element
}.

Definition contains (c : string) (el : Element) : bool :=
  bool_decide (c ∈ classList el).

Definition getAttribute (a : string) (el : Element) : option string :=
  attributes el !! a.

Definition classList_add (cs : list string) (el : Element) : Element :=
  mkElement (uid el) (list_to_set cs ∪ classList el) (attributes el) (matrix el).

Definition classList_remove (cs : list string) (el : Element) : Element :=
  mkElement (uid el) (classList el ∖ list_to_set cs) (attributes el) (matrix el).

Definition set_matrix (m : SVGMatrix) (el : Element) : Element :=
  mkElement (uid el) (classList el) (attributes el) m.

(** All elements below the workflow group, in document order. *)
Definition descendants (cs : list Child) : list Element :=
  concat (map (fun c => self c :: nested c) cs).

(** Apply [f] to every element below the workflow group. *)
Definition map_elements (f : Element -> Element) (cs : list Child) : list Child :=
  map (fun c => mkChild (f (self c)) (map f (nested c))) cs.

(** Apply [f] to the elements that satisfy [p]. *)
Definition update_where (p : Element -> bool) (f : Element -> Element)
    (cs : list Child) : list Child :=
  map_elements (fun el => if p el then f el else el) cs.

(** [querySelectorAll("." + c)] *)
Definition querySelectorAll_class (c : string) (cs : list Child) : list Element :=
  List.filter (contains c) (descendants cs).

(** [querySelector("." + c)] *)
Definition querySelector_class (c : string) (cs : list Child) : option Element :=
  head (querySelectorAll_class c cs).

Definition find_element (u : nat) (cs : list Child) : option Element :=
  List.find (fun el => Nat.eqb (uid el) u) (descendants cs).

(** [Workflow.findParentNode(el)]: the walk up from [el] ends at an
    element of class "node", or at the document, which has no [classList]. *)
Definition findParentNode (cs : list Child) (el : option nat) : result (option Element) :=
  match el with
  | None => Ok None
  | Some u =>
      match List.find (fun c => existsb (fun e => Nat.eqb (uid e) u) (self c :: nested c)) cs with
      | None => Ok None
      | Some c =>
          match List.find (fun e => Nat.eqb (uid e) u) (self c :: nested c) with
          | Some e =>
              if contains "node" e then Ok (Some e)
              else if contains "node" (self c) then Ok (Some (self c))
              else Throw (TypeError "Cannot read property 'contains' of undefined")
          | None => Ok None
          end
      end
  end.

(** ** Plugins ([src/plugins/plugin.ts]) *)

(** A plugin: for each method of the interface [SVGPlugin], whether the
    object has it ([typeof plugin[m] === "function"]). *)
Record SVGPlugin : Type := mkPlugin {
  registerWorkflowModel : bool;
  registerOnBeforeChange : bool;
  registerOnAfterChange : bool;
  afterRender : bool
}.

Definition has_method (p : SVGPlugin) (methodName : string) : bool :=
  if String.eqb methodName "registerWorkflowModel" then registerWorkflowModel p
  else if String.eqb methodName "registerOnBeforeChange" then registerOnBeforeChange p
  else if String.eqb methodName "registerOnAfterChange" then registerOnAfterChange p
  else if String.eqb methodName "afterRender" then afterRender p
  else false.

(** A call of a plugin's method: the plugin's index in [plugins] and the
    method's name. *)
Definition call : Type := nat * string.

(** ** The event hub *)

(** What an event is emitted with. *)
Inductive payload : Type :=
| Change (type : string) (data : option (list nat))   (* { type, data }, elements by [uid] *)
| Selected (el : option nat).                (* an element, or null *)

Definition emission : Type := string * payload.

(** ** The state of a [Workflow] object *)

Record DragBoundaryInterval : Type := mkInterval {
  on_x : bool;                       (* x *)
  on_y : bool;                       (* y *)
  interval : option positive;        (* the handle of setInterval, or null *)
  xOffset : number;
  yOffset : number;
  highlightedPort : option nat       (* the port element, or undefined *)
}.

Definition defaultInterval : DragBoundaryInterval :=
  mkInterval false false None (Fin 0) (Fin 0) None.

(** What the drag handlers hand to [setDragBoundaryIntervalIfNecessary], and
    what the function run by the interval keeps hold of. *)

Record PathInfo : Type := mkPathInfo {
  startX : number;
  startY : number;
  (* per edge element, the entries 0, 1, 6 and 7 of its array of numbers *)
  inputEdges : list (nat * (number * number * number * number));
  outputEdges : list (nat * (number * number * number * number))
}.

Record GhostIO : Type := mkGhostIO {
  edge : nat;                                  (* the dragged edge *)
  nodeToMouseDistance : number;
  connectionPorts : list nat;
  ghostHighlightedPort : option nat;           (* highlightedPort *)
  origin : SVGPoint;
  coords : SVGPoint;
  portToOriginTransformation : gmap nat SVGMatrix;
  edgeDirection : string
}.

Record Ticker : Type := mkTicker {
  handle : positive;                           (* what setInterval returned *)
  boundary_x : Z;
  boundary_y : Z;
  dragged : nat;                               (* el *)
  mx : SVGMatrix;                              (* el.transform.baseVal.getItem(0).matrix *)
  pathInfo : option PathInfo;
  ghostIO : option GhostIO;
  (* workflowMatrix, the matrix of the workflow when the interval was set:
     [None] while it is the matrix of the transform of the workflow, and its
     own value once the attribute has been set anew *)
  workflowMatrix : option SVGMatrix
}.

Record Workflow (M : Type) : Type := mkWorkflow {
  scale : number;
  transform : SVGMatrix;             (* workflow.transform.baseVal.getItem(0).matrix *)
  workflowClass : gset string;       (* workflow.classList *)
  children : list Child;             (* the children of the workflow group *)
  model : M;
  plugins : list SVGPlugin;
  isDragging : bool;
  dragBoundary : number;
  dragBoundaryTranslation : number;
  dragBoundaryInterval : DragBoundaryInterval;
  workflowBoundingClientRect : option DOMRect;   (* undefined until assigned *)
  timers : list Ticker;              (* the intervals that are running *)
  emitted : list emission;           (* eventHub.emit, oldest first *)
  invoked : list call                (* calls of plugin methods, oldest first *)
}.

Arguments mkWorkflow {M}.
Arguments scale {M}.
Arguments transform {M}.
Arguments workflowClass {M}.
Arguments children {M}.
Arguments model {M}.
Arguments plugins {M}.
Arguments isDragging {M}.
Arguments dragBoundary {M}.
Arguments dragBoundaryTranslation {M}.
Arguments dragBoundaryInterval {M}.
Arguments workflowBoundingClientRect {M}.
Arguments timers {M}.
Arguments emitted {M}.
Arguments invoked {M}.

Section Setters.
Context {M : Type}.
Implicit Type w : Workflow M.

Definition set_scale (v : number) w : Workflow M :=
  mkWorkflow v (transform w) (workflowClass w) (children w) (model w) (plugins w)
    (isDragging w) (dragBoundary w) (dragBoundaryTranslation w)
    (dragBoundaryInterval w) (workflowBoundingClientRect w) (timers w)
    (emitted w) (invoked w).

Definition set_transform (v : SVGMatrix) w : Workflow M :=
  mkWorkflow (scale w) v (workflowClass w) (children w) (model w) (plugins w)
    (isDragging w) (dragBoundary w) (dragBoundaryTranslation w)
    (dragBoundaryInterval w) (workflowBoundingClientRect w) (timers w)
    (emitted w) (invoked w).

Definition set_workflowClass (v : gset string) w : Workflow M :=
  mkWorkflow (scale w) (transform w) v (children w) (model w) (plugins w)
    (isDragging w) (dragBoundary w) (dragBoundaryTranslation w)
    (dragBoundaryInterval w) (workflowBoundingClientRect w) (timers w)
    (emitted w) (invoked w).

Definition set_children (v : list Child) w : Workflow M :=
  mkWorkflow (scale w) (transform w) (workflowClass w) v (model w) (plugins w)
    (isDragging w) (dragBoundary w) (dragBoundaryTranslation w)
    (dragBoundaryInterval w) (workflowBoundingClientRect w) (timers w)
    (emitted w) (invoked w).

Definition set_model (v : M) w : Workflow M :=
  mkWorkflow (scale w) (transform w) (workflowClass w) (children w) v (plugins w)
    (isDragging w) (dragBoundary w) (dragBoundaryTranslation w)
    (dragBoundaryInterval w) (workflowBoundingClientRect w) (timers w)
    (emitted w) (invoked w).

Definition set_dragBoundary (v : number) w : Workflow M :=
  mkWorkflow (scale w) (transform w) (workflowClass w) (children w) (model w)
    (plugins w) (isDragging w) v (dragBoundaryTranslation w)
    (dragBoundaryInterval w) (workflowBoundingClientRect w) (timers w)
    (emitted w) (invoked w).

Definition set_dragBoundaryInterval (v : DragBoundaryInterval) w : Workflow M :=
  mkWorkflow (scale w) (transform w) (workflowClass w) (children w) (model w)
    (plugins w) (isDragging w) (dragBoundary w) (dragBoundaryTranslation w)
    v (workflowBoundingClientRect w) (timers w) (emitted w) (invoked w).

Definition set_workflowBoundingClientRect (v : option DOMRect) w : Workflow M :=
  mkWorkflow (scale w) (transform w) (workflowClass w) (children w) (model w)
    (plugins w) (isDragging w) (dragBoundary w) (dragBoundaryTranslation w)
    (dragBoundaryInterval w) v (timers w) (emitted w) (invoked w).

Definition set_timers (v : list Ticker) w : Workflow M :=
  mkWorkflow (scale w) (transform w) (workflowClass w) (children w) (model w)
    (plugins w) (isDragging w) (dragBoundary w) (dragBoundaryTranslation w)
    (dragBoundaryInterval w) (workflowBoundingClientRect w) v
    (emitted w) (invoked w).

(** [this.workflow.setAttribute("transform", ...)], for the string of the
    matrix [v]: the list of the transforms is made anew, so that a matrix
    that an interval has taken from the old list is no longer the one of the
    workflow, and keeps the value it has. *)
Definition set_transform_attribute (v : SVGMatrix) w : Workflow M :=
  let detached :=
    map (fun t =>
           match workflowMatrix t with
           | None => mkTicker (handle t) (boundary_x t) (boundary_y t) (dragged t) (mx t)
                       (pathInfo t) (ghostIO t) (Some (transform w))
           | Some _ => t
           end)
        (timers w) in
  set_transform v (set_timers detached w).

(** [this.eventHub.emit(event, data)] *)
Definition emit (event : string) (data : payload) w : Workflow M :=
  mkWorkflow (scale w) (transform w) (workflowClass w) (children w) (model w)
    (plugins w) (isDragging w) (dragBoundary w) (dragBoundaryTranslation w)
    (dragBoundaryInterval w) (workflowBoundingClientRect w) (timers w)
    (emitted w ++ [(event, data)]) (invoked w).

(** The call of method [m] of the plugin at index [i]. *)
Definition invoke (i : nat) (m : string) w : Workflow M :=
  mkWorkflow (scale w) (transform w) (workflowClass w) (children w) (model w)
    (plugins w) (isDragging w) (dragBoundary w) (dragBoundaryTranslation w)
    (dragBoundaryInterval w) (workflowBoundingClientRect w) (timers w)
    (emitted w) (invoked w ++ [(i, m)]).
End Setters.

(** ** What the browser computes

    The layout of the page is not in the hands of the engine: the screen
    transform of the [<svg>] root, its bounding rectangle, and the bounding
    rectangle of the workflow group for a given transform and content; nor
    is the string that the browser writes for a matrix: [restored m] is the
    matrix of the transform once the attribute has been read, when the
    matrix was [m], and set again to the string that was read. *)

Record Layout : Type := mkLayout {
  rootCTM : SVGMatrix;                                (* svgRoot.getScreenCTM() *)
  rootRect : DOMRect;                                 (* svgRoot.getBoundingClientRect() *)
  groupRect : SVGMatrix -> list Child -> DOMRect;     (* workflow.getBoundingClientRect() *)
  restored : SVGMatrix -> SVGMatrix   (* setAttribute("transform", getAttribute("transform")) *)
}.

Record ClientPoint : Type := mkClient { clientX : number; clientY : number }.

Record MouseWheelEvent : Type := mkWheel { pointer : ClientPoint; deltaY : number }.

(** ** The viewport *)

Definition minScale : number := Fin 0.2.
Definition maxScale : number := Fin 2.

Section Viewport.
Context {M : Type} (L : Layout).
Implicit Type w : Workflow M.

(** [this.workflow.getScreenCTM()]: the transform of the group, then the
    screen transform of the root. *)
Definition getScreenCTM w : SVGMatrix := multiply (rootCTM L) (transform w).

Definition transformScreenCTMtoCanvas w (x y : number) : result SVGPoint :=
  let ctm := getScreenCTM w in
  let point := mkPoint x y in
  inv ← inverse ctm;
  let t := matrixTransform point inv in
  Ok (mkPoint (px t) (py t)).

(** The elements of [querySelectorAll(".node .label")]. *)
Definition is_node_label (c : Child) (el : Element) : bool :=
  contains "node" (self c) && contains "label" el.

Definition scale_labels (labelScale : number) (cs : list Child) : list Child :=
  map (fun c =>
         mkChild (self c)
           (map (fun el =>
                   if is_node_label c el
                   then set_matrix (mkMatrix labelScale (mb (matrix el)) (mc (matrix el))
                                             labelScale (me (matrix el)) (mf (matrix el))) el
                   else el)
                (nested c)))
      cs.

(** Whether [querySelectorAll(".node .label")] finds an element. *)
Definition has_node_label (cs : list Child) : bool :=
  existsb (fun c => existsb (is_node_label c) (nested c)) cs.

(** The entries of an [SVGMatrix] are finite: a setter raises a TypeError
    on NaN and on the infinities.  The factor is written to [a] and [d], and
    the scale of the labels to the [a] and [d] of each label, if there is
    one.  What is written to [e] and [f] is finite when the matrices of the
    state and the point are. *)
Definition scaleWorkflow (scaleCoefficient : option number) (ev : option ClientPoint)
    w : result (Workflow M) :=
  let scaleCoefficient := default (Fin 1) scaleCoefficient in
  let w := set_scale scaleCoefficient w in
  let matrix := transform w in
  coords ← transformScreenCTMtoCanvas w
             (match ev with Some ev => clientX ev | None => Fin 0 end)
             (match ev with Some ev => clientY ev | None => Fin 0 end);
  let e1 := (me matrix + ma matrix * px coords)%js in
  let f1 := (mf matrix + ma matrix * py coords)%js in
  if negb (isFinite scaleCoefficient)
  then Throw (TypeError "Failed to set the 'a' property on 'SVGMatrix': The provided double value is non-finite.")
  else
    let e2 := (e1 - scaleCoefficient * px coords)%js in
    let f2 := (f1 - scaleCoefficient * py coords)%js in
    let w := set_transform
               (mkMatrix scaleCoefficient (mb matrix) (mc matrix) scaleCoefficient e2 f2) w in
    let labelScale := (Fin 1 + (Fin 1 - scale w) / (scale w * Fin 2))%js in
    if has_node_label (children w) && negb (isFinite labelScale)
    then Throw (TypeError "Failed to set the 'a' property on 'SVGMatrix': The provided double value is non-finite.")
    else Ok (set_children (scale_labels labelScale (children w)) w).

Definition scaleWorkflowCenter (scaleCoefficient : option number) w : result (Workflow M) :=
  let w := set_workflowBoundingClientRect (Some (rootRect L)) w in
  let r := rootRect L in
  scaleWorkflow (Some (default (Fin 1) scaleCoefficient))
    (Some (mkClient ((right r + left r) / Fin 2) ((top r + bottom r) / Fin 2))) w.

Definition adaptToScale w (x : number) : number := (x * (Fin 1 / scale w))%js.

(** The listener of "mousewheel" installed by the constructor.  The
    boolean tells whether [ev.stopPropagation()] was called. *)
Definition onMouseWheel (ev : MouseWheelEvent) w : result (Workflow M * bool) :=
  if isDragging w then Ok (w, false)
  else
    let scale := (scale w + deltaY ev / Fin 500)%js in
    if (scale <=? minScale)%js || (scale >=? maxScale)%js then Ok (w, false)
    else
      w ← scaleWorkflow (Some scale) (Some (pointer ev)) w;
      Ok (w, true).

Definition fitToViewport w : result (Workflow M) :=
  w ← scaleWorkflow (Some (Fin 1)) None w;
  let m := transform w in
  let w := set_transform (mkMatrix (ma m) (mb m) (mc m) (md m) (Fin 0) (Fin 0)) w in
  let clientBounds := rootRect L in
  let wfBounds := groupRect L (transform w) (children w) in
  let padding := Fin 100 in
  if (width clientBounds === Fin 0)%js || (height clientBounds === Fin 0)%js
  then Throw (Error "Cannot fit workflow to the area that has no visible viewport.")
  else
    let verticalScale := (height wfBounds / (height clientBounds - padding))%js in
    let horizontalScale := (width wfBounds / (width clientBounds - padding))%js in
    let scaleFactor := Math_max verticalScale horizontalScale in
    let newScale := Math_min (scale w / scaleFactor) (Fin 1) in
    w ← scaleWorkflow (Some newScale) None w;
    let scaledWFBounds := groupRect L (transform w) (children w) in
    let moveY := (top clientBounds - top scaledWFBounds
                  + Math_abs (height clientBounds - height scaledWFBounds) / Fin 2)%js in
    let moveX := (left clientBounds - left scaledWFBounds
                  + Math_abs (width clientBounds - width scaledWFBounds) / Fin 2)%js in
    let m := transform w in
    Ok (set_transform
          (mkMatrix (ma m) (mb m) (mc m) (md m) (me m + moveX) (mf m + moveY)) w).
End Viewport.

(** ** The collaborators of the engine

    The workflow model (package cwlts) and the templates of the nodes and
    edges ([GraphNode], [GraphEdge]) are used through what follows. *)

Record NodeModel : Type := mkNode {
  connectionId : string;
  isVisible : bool;
  customProps : option (gmap string number)     (* undefined, or an object *)
}.

Record Connection : Type := mkConnection {
  source_id : string;             (* c.source.id *)
  destination_id : string;        (* c.destination.id *)
  connection_isVisible : bool
}.

Record Collaborators (M : Type) : Type := mkCollaborators {
  steps : M -> list NodeModel;
  inputs : M -> list NodeModel;
  outputs : M -> list NodeModel;
  connections : M -> list Connection;
  removeStep : option string -> M -> M;
  removeInput : option string -> M -> M;
  removeOutput : option string -> M -> M;
  disconnect : option string -> option string -> M -> M;
  patchModelPorts : NodeModel -> NodeModel;                 (* GraphNode.patchModelPorts *)
  makeNodeTemplate : NodeModel -> number -> number -> Child;  (* GraphNode.makeTemplate *)
  makeEdgeTemplate : Connection -> string -> Child;         (* GraphEdge.makeTemplate *)
  (* IOPort.makeConnectionPath, with or without a direction *)
  IOPort_makeConnectionPath : number -> number -> number -> number -> option string -> string;
  distance : number -> number -> number -> number -> number   (* Geometry.distance *)
}.

Arguments steps {M}.
Arguments inputs {M}.
Arguments outputs {M}.
Arguments connections {M}.
Arguments removeStep {M}.
Arguments removeInput {M}.
Arguments removeOutput {M}.
Arguments disconnect {M}.
Arguments patchModelPorts {M}.
Arguments makeNodeTemplate {M}.
Arguments makeEdgeTemplate {M}.
Arguments IOPort_makeConnectionPath {M}.
Arguments distance {M}.

(** [parseInt(v)] of a property that is a number or missing: the integer
    part of a finite number, NaN otherwise. *)
Definition parseInt (v : option number) : number :=
  match v with
  | Some (Fin q) => Fin (inject_Z (if Qle_bool 0 q then Qfloor q else Qceiling q))
  | _ => NaN
  end.

(** ** Plugins, selection and rendering *)

Section Engine.
Context {M : Type} (L : Layout) (C : Collaborators M).
Implicit Type w : Workflow M.

Definition invokePlugins (methodName : string) w : Workflow M :=
  foldl (fun w ip => if has_method ip.2 methodName then invoke ip.1 methodName w else w)
        w (imap pair (plugins w)).

(** The body of [this.plugins.forEach] in [hookPlugins], for the plugin at
    index [i]: a call of a method the plugin lacks raises a TypeError. *)
Definition hookPlugin (i : nat) (plugin : SVGPlugin) w : result (Workflow M) :=
  if negb (registerWorkflowModel plugin)
  then Throw (TypeError "plugin.registerWorkflowModel is not a function")
  else
    let w := invoke i "registerWorkflowModel" w in
    if negb (registerOnBeforeChange plugin)
    then Throw (TypeError "plugin.registerOnBeforeChange is not a function")
    else
      let w := invoke i "registerOnBeforeChange" w in
      if negb (registerOnAfterChange plugin)
      then Throw (TypeError "plugin.registerOnAfterChange is not a function")
      else Ok (invoke i "registerOnAfterChange" w).

Fixpoint hookPlugins_from (i : nat) (ps : list SVGPlugin) w : result (Workflow M) :=
  match ps with
  | [] => Ok w
  | plugin :: ps => w ← hookPlugin i plugin w; hookPlugins_from (S i) ps w
  end.

Definition hookPlugins w : result (Workflow M) := hookPlugins_from 0 (plugins w) w.

Definition deselectEverything w : Workflow M :=
  let w := set_children
             (update_where (contains "highlighted") (classList_remove ["highlighted"])
                           (children w)) w in
  let w := set_workflowClass (workflowClass w ∖ {["has-selection"]}) w in
  let w := match querySelector_class "selected" (children w) with
           | Some selected =>
               set_children
                 (update_where (fun el => Nat.eqb (uid el) (uid selected))
                               (classList_remove ["selected"]) (children w)) w
           | None => w
           end in
  emit "selectionChange" (Selected None) w.

(** A missing attribute is [null], which a template string prints as "null". *)
Definition attr_string (a : string) (el : Element) : string :=
  default "null" (getAttribute a el).

Definition has_attr (a v : string) (el : Element) : bool :=
  bool_decide (getAttribute a el = Some v).

(** Move the child [c] just before the first child of class "node", or to
    the end when there is none ([workflow.insertBefore(edge, firstNode)]). *)
Fixpoint insertBeforeFirstNode (c : Child) (cs : list Child) : list Child :=
  match cs with
  | [] => [c]
  | c' :: cs' =>
      if contains "node" (self c') then c :: cs
      else c' :: insertBeforeFirstNode c cs'
  end.

Definition is_child (u : nat) (c : Child) : bool := Nat.eqb (uid (self c)) u.

Definition raise_edge (cs : list Child) (edge : Child) : list Child :=
  insertBeforeFirstNode edge (List.filter (fun c => negb (is_child (uid (self edge)) c)) cs).

(** The body of the loop of [activateSelection] over the edges of the
    node, for the edge of identity [u]. *)
Definition highlight_edge_of (u : nat) (cs : list Child) : list Child :=
  let cs := update_where (fun el => Nat.eqb (uid el) u) (classList_add ["highlighted"]) cs in
  match List.find (is_child u) cs with
  | Some edge =>
      let sourceNodeID := attr_string "data-source-node" (self edge) in
      let destinationNodeID := attr_string "data-destination-node" (self edge) in
      let cs := update_where
                  (fun el => contains "node" el
                             && (has_attr "data-id" sourceNodeID el
                                 || has_attr "data-id" destinationNodeID el))
                  (classList_add ["highlighted"]) cs in
      match List.find (is_child u) cs with
      | Some edge => raise_edge cs edge
      | None => cs
      end
  | None => cs
  end.

Definition activateSelection (el : Element) w : Workflow M :=
  let w := deselectEverything w in
  let w := set_workflowClass ({["has-selection"]} ∪ workflowClass w) w in
  let nodeID := attr_string "data-id" el in
  let edges := List.filter
                 (fun c => contains "edge" (self c)
                           && (has_attr "data-source-node" nodeID (self c)
                               || has_attr "data-destination-node" nodeID (self c)))
                 (children w) in
  let w := set_children
             (foldl (fun cs edge => highlight_edge_of (uid (self edge)) cs)
                    (children w) edges) w in
  let w := set_children
             (update_where (fun e => Nat.eqb (uid e) (uid el)) (classList_add ["selected"])
                           (children w)) w in
  emit "selectionChange" (Selected (Some (uid el))) w.

Definition clearCanvas w : Workflow M :=
  set_workflowClass {["workflow"]} (set_children [] w).

(** The identifier of an edge in [redrawEdges]; reading [.value] of a
    missing attribute raises. *)
Definition edgeID_of (el : Element) : result string :=
  match getAttribute "data-source-connection" el,
        getAttribute "data-destination-connection" el with
  | Some s, Some d => Ok (s +:+ d)
  | _, _ => Throw (TypeError "Cannot read property 'value' of undefined")
  end.

Fixpoint highlighted_ids (edges : list Child) : result (gset string) :=
  match edges with
  | [] => Ok ∅
  | c :: cs =>
      if contains "highlighted" (self c)
      then edgeID ← edgeID_of (self c); ids ← highlighted_ids cs; Ok ({[edgeID]} ∪ ids)
      else highlighted_ids cs
  end.

Definition redrawEdges w : result (Workflow M) :=
  let edges := List.filter (fun c => contains "edge" (self c)) (children w) in
  highlightedEdges ← highlighted_ids edges;
  let rest := List.filter (fun c => negb (contains "edge" (self c))) (children w) in
  let edgesTpl :=
    map (fun c =>
           let edgeId := source_id c +:+ destination_id c in
           let edgeStates := if bool_decide (edgeId ∈ highlightedEdges)
                             then "highlighted" else "" in
           makeEdgeTemplate C c edgeStates)
        (connections C (model w)) in
  Ok (set_children (edgesTpl ++ rest) w).

(** One step of the [reduce] of [renderModel] over the node models: the
    template of the node and whether a coordinate is missing. *)
Definition node_template (nodeModel : NodeModel) : result (Child * bool) :=
  match customProps nodeModel with
  | None => Throw (TypeError "Cannot read property 'sbg:x' of undefined")
  | Some props =>
      let px_ok := negb (isNaN (parseInt (props !! "sbg:x"))) in
      let py_ok := negb (isNaN (parseInt (props !! "sbg:y"))) in
      let x := if px_ok then default NaN (props !! "sbg:x") else Fin 0 in
      let y := if py_ok then default NaN (props !! "sbg:y") else Fin 0 in
      Ok (makeNodeTemplate C nodeModel x y, negb px_ok || negb py_ok)
  end.

Fixpoint node_templates (nodes : list NodeModel) : result (list Child * bool) :=
  match nodes with
  | [] => Ok ([], false)
  | n :: ns =>
      t ← node_template n;
      ts ← node_templates ns;
      Ok (t.1 :: ts.1, t.2 || ts.2)
  end.

Definition renderModel (m : M) w : result (Workflow M) :=
  let w := set_model m w in
  let oldTransform := transform w in
  let selectedStuff := querySelector_class "selected" (children w) in
  let selectedItemConnectionID :=
    match selectedStuff with
    | Some el => getAttribute "data-connection-id" el
    | None => None
    end in
  let w := clearCanvas w in
  let w := set_transform_attribute identity w in
  let nodes := List.filter isVisible (steps C m ++ inputs C m ++ outputs C m) in
  tpl ← node_templates (map (patchModelPorts C) nodes);
  let arrangeNecessary : bool := tpl.2 in
  let w := set_children (children w ++ tpl.1) w in
  w ← redrawEdges w;
  let w := set_children
             (List.filter (fun c => negb (contains "node" (self c))) (children w)
              ++ List.filter (fun c => contains "node" (self c)) (children w)) w in
  let w := set_transform_attribute (restored L oldTransform) w in
  w ← (if arrangeNecessary then Ok w else scaleWorkflow L (Some (scale w)) None w);
  let w :=
    match selectedItemConnectionID with
    | Some id =>
        if String.eqb id "" then w
        else match List.find (has_attr "data-connection-id" id) (descendants (children w)) with
             | Some newSelection => activateSelection newSelection w
             | None => w
             end
    | None => w
    end in
  Ok (invokePlugins "afterRender" w).

(** [querySelector('.port[data-connection-id="' + id + '"]')] *)
Definition querySelector_port (id : string) (cs : list Child) : option Element :=
  List.find (fun e => contains "port" e && has_attr "data-connection-id" id e) (descendants cs).

(** The body of [selection.forEach] in [deleteSelection]. *)
Definition deleteElement (el : Element) w : result (Workflow M) :=
  if contains "step" el then
    let w := set_model (removeStep C (getAttribute "data-connection-id" el) (model w)) w in
    renderModel (model w) w
  else if contains "edge" el then
    let sourcePortID := getAttribute "data-source-connection" el in
    let destinationPortID := getAttribute "data-destination-connection" el in
    let sourcePort :=
      querySelector_port (attr_string "data-source-connection" el) (children w) in
    let destinationPort :=
      querySelector_port (attr_string "data-destination-connection" el) (children w) in
    sourceNode ← findParentNode (children w) (uid <$> sourcePort);
    destinationNode ← findParentNode (children w) (uid <$> destinationPort);
    let w := set_model (disconnect C sourcePortID destinationPortID (model w)) w in
    renderModel (model w) w
  else if contains "input" el then
    let w := set_model (removeInput C (getAttribute "data-connection-id" el) (model w)) w in
    renderModel (model w) w
  else if contains "output" el then
    let w := set_model (removeOutput C (getAttribute "data-connection-id" el) (model w)) w in
    renderModel (model w) w
  else Ok w.

Fixpoint deleteElements (selection : list Element) w : result (Workflow M) :=
  match selection with
  | [] => Ok w
  | el :: els => w ← deleteElement el w; deleteElements els w
  end.

Definition deleteSelection w : result (Workflow M) :=
  let selection := querySelectorAll_class "selected" (children w) in
  if Nat.eqb (length selection) 0 then Ok w
  else
    let changeEventData := Change "deletion" (Some (map uid selection)) in
    let w := emit "beforeChange" changeEventData w in
    w ← deleteElements selection w;
    let w := emit "selectionChange" (Selected None) w in
    Ok (emit "afterChange" changeEventData w).

(** [new Workflow({ svgRoot, model, plugins })] *)
Definition constructor (m : M) (ps : option (list SVGPlugin)) : result (Workflow M) :=
  let w := mkWorkflow (Fin 1) identity ∅ [] m (default [] ps) false
             (Fin 50) (Fin 5) defaultInterval None [] [] [] in
  w ← hookPlugins w;
  let w := set_workflowClass {["workflow"]} (set_transform identity w) in
  renderModel m w.
End Engine.

(** ** The connection router *)

(** An argument that may be left out: [undefined], [null] or a string. *)
Inductive argument : Type :=
| Omitted
| Null
| Str (s : string).

(** The curve [M start C control1 control2 finish]. *)
Record CubicPath : Type := mkPath {
  start : SVGPoint;
  control1 : SVGPoint;
  control2 : SVGPoint;
  finish : SVGPoint
}.

Definition is_truthy (v : argument) : bool :=
  match v with
  | Str s => negb (String.eqb s "")
  | _ => false
  end.

(** [Workflow.makeConnectionPath]; [None] is the [undefined] returned when
    no branch is taken. *)
Definition makeConnectionPath (x1 y1 x2 y2 : number) (forceDirection : argument)
    : option CubicPath :=
  let forceDirection :=
    match forceDirection with Omitted => Str "right" | v => v end in
  if negb (is_truthy forceDirection) then
    Some (mkPath (mkPoint x1 y1)
                 (mkPoint ((x1 + x2) / Fin 2) y1) (mkPoint ((x1 + x2) / Fin 2) y2)
                 (mkPoint x2 y2))
  else
    match forceDirection with
    | Str "right" =>
        let outDir := (x1 + Math_abs (x1 - x2) / Fin 2)%js in
        let inDir := (x2 - Math_abs (x1 - x2) / Fin 2)%js in
        Some (mkPath (mkPoint x1 y1) (mkPoint outDir y1) (mkPoint inDir y2) (mkPoint x2 y2))
    | Str "left" =>
        let outDir := (x1 - Math_abs (x1 - x2) / Fin 2)%js in
        let inDir := (x2 + Math_abs (x1 - x2) / Fin 2)%js in
        Some (mkPath (mkPoint x1 y1) (mkPoint outDir y1) (mkPoint inDir y2) (mkPoint x2 y2))
    | _ => None
    end.

(** A [Map] from elements to numbers, in insertion order. *)
Definition ElementMap : Type := list (nat * number).

Definition Map_get (k : nat) (m : ElementMap) : option number :=
  snd <$> List.find (fun e => Nat.eqb e.1 k) m.

Fixpoint Map_set (k : nat) (v : number) (m : ElementMap) : ElementMap :=
  match m with
  | [] => [(k, v)]
  | e :: m' => if Nat.eqb e.1 k then (k, v) :: m' else e :: Map_set k v m'
  end.

(** [Array.prototype.sort] with a comparison function: [x] goes before the
    first element that compares greater than it. *)
Fixpoint sort_insert {A : Type} (cmp : A -> A -> number) (x : A) (l : list A) : list A :=
  match l with
  | [] => [x]
  | y :: l' => if (Fin 0 <? cmp y x)%js then x :: l else y :: sort_insert cmp x l'
  end.

Definition Array_sort {A : Type} (cmp : A -> A -> number) (l : list A) : list A :=
  foldl (fun acc x => sort_insert cmp x acc) [] l.

Section Router.
Context {M : Type} (C : Collaborators M).
Implicit Type w : Workflow M.

(** [this.workflow.appendChild(el)] *)
Definition appendChild (u : nat) (cs : list Child) : list Child :=
  match List.find (is_child u) cs with
  | Some c => List.filter (fun c => negb (is_child u c)) cs ++ [c]
  | None =>
      match find_element u cs with
      | Some el =>
          map (fun c => mkChild (self c)
                          (List.filter (fun e => negb (Nat.eqb (uid e) u)) (nested c))) cs
          ++ [mkChild el []]
      | None => cs
      end
  end.

Definition getSortedConnectionPorts (connectionPorts : list nat) (coords : SVGPoint)
    (portToOriginTransformation : gmap nat SVGMatrix)
    : result (list nat * ElementMap) :=
  distances ← foldl (fun acc el =>
                       distances ← acc;
                       match portToOriginTransformation !! el with
                       | Some ctm =>
                           Ok (Map_set el (distance C (px coords) (py coords) (me ctm) (mf ctm))
                                       distances)
                       | None => Throw (TypeError "Cannot read property 'e' of undefined")
                       end)
                    (Ok []) connectionPorts;
  let get el := default NaN (Map_get el distances) in
  let sorted := Array_sort (fun el1 el2 => (get el1 - get el2)%js) connectionPorts in
  Ok (sorted, foldl (fun ordered el => Map_set el (get el) ordered) [] sorted).

Definition removeHighlightedPort (highlightedPort : option nat) (edgeDirection : string)
    w : result (Workflow M) :=
  match highlightedPort with
  | Some port =>
      parentNode ← findParentNode (children w) (Some port);
      let cs := update_where (fun e => Nat.eqb (uid e) port)
                  (classList_remove ["highlighted"; "preferred-port"]) (children w) in
      match parentNode with
      | Some node =>
          Ok (set_children
                (update_where (fun e => Nat.eqb (uid e) (uid node))
                   (classList_remove ["preferred-node"; edgeDirection]) cs) w)
      | None => Throw (TypeError "Cannot read property 'classList' of undefined")
      end
  | None => Ok w
  end.

Definition setHighlightedPort (sortedMap : ElementMap) (edgeDirection : string)
    w : result (Workflow M * option nat) :=
  let portElements := map fst sortedMap in
  match head portElements with
  | Some first =>
      if (default NaN (Map_get first sortedMap) <? Fin 100)%js then
        let highlightedPort := first in
        let cs := update_where (fun e => Nat.eqb (uid e) highlightedPort)
                    (classList_add ["highlighted"; "preferred-port"]) (children w) in
        parentNode ← findParentNode cs (Some highlightedPort);
        match parentNode with
        | Some node =>
            let cs := appendChild (uid node) cs in
            let cs := update_where (fun e => Nat.eqb (uid e) (uid node))
                        (classList_add ["highlighted"; "preferred-node"; edgeDirection]) cs in
            Ok (set_children cs w, Some highlightedPort)
        | None => Throw (TypeError "Failed to execute 'appendChild' on 'Node'")
        end
      else Ok (w, None)
  | None => Ok (w, None)
  end.

Definition translateGhostNodeAndShowIfNecessary (ghostIONode : nat)
    (nodeToMouseDistance : number) (isCloseToPort : bool) (newCoords : SVGPoint)
    w : Workflow M :=
  let show := (nodeToMouseDistance >? Fin 120)%js && negb isCloseToPort in
  set_children
    (update_where (fun e => Nat.eqb (uid e) ghostIONode)
       (fun e =>
          let e := classList_add ["hidden"] e in
          let e := if show then classList_remove ["hidden"] e else e in
          set_matrix (mkMatrix (Fin 1) (Fin 0) (Fin 0) (Fin 1) (px newCoords) (py newCoords)) e)
       (children w)) w.
End Router.

(** ** The drag boundary and its interval *)

Section Boundary.
Context {M : Type} (C : Collaborators M).
Implicit Type w : Workflow M.

(** The condition of the [while] loop of [setDragBoundaryIntervalIfNecessary]. *)
Definition boundaries_collide (r : DOMRect) (dragBoundary : number) : bool :=
  (right r - dragBoundary <=? left r + dragBoundary)%js
  || (right r <=? left r + dragBoundary * Fin 4)%js.

(** The loop, run for at most [fuel] tests of its condition: the value of
    [dragBoundary] when it ends, [None] when it has not ended by then. *)
Fixpoint resizeDragBoundary (fuel : nat) (r : DOMRect) (dragBoundary : number)
    : option number :=
  match fuel with
  | O => None
  | S fuel =>
      if boundaries_collide r dragBoundary
      then resizeDragBoundary fuel r (dragBoundary / Fin 2)
      else Some dragBoundary
  end.

Definition clearInterval (h : option positive) (ts : list Ticker) : list Ticker :=
  match h with
  | Some h => List.filter (fun t => negb (Pos.eqb (handle t) h)) ts
  | None => ts
  end.

(** The handle that [setInterval] returns: one that is not in use. *)
Definition fresh_handle (ts : list Ticker) : positive :=
  Pos.succ (foldr Pos.max 1%positive (map handle ts)).

Definition nonzero (z : Z) : bool := negb (Z.eqb z 0).

(** [None]: the loop at the head of the function has not ended within
    [fuel] tests. *)
Definition setDragBoundaryIntervalIfNecessary (fuel : nat) (el : Element)
    (boundary : Z * Z) (pathInfo : option PathInfo) (ghostIO : option GhostIO)
    w : option (result (Workflow M)) :=
  match workflowBoundingClientRect w with
  | None => Some (Throw (TypeError "Cannot read property 'right' of undefined"))
  | Some r =>
      dragBoundary ← resizeDragBoundary fuel r (dragBoundary w);
      let w := set_dragBoundary dragBoundary w in
      let dbi := dragBoundaryInterval w in
      if nonzero boundary.1 || nonzero boundary.2 then
        if negb (on_x dbi) && nonzero boundary.1
           || negb (on_y dbi) && nonzero boundary.2
           || (on_x dbi && on_y dbi && negb (nonzero boundary.1 && nonzero boundary.2))
        then
          let highlighted :=
            match ghostIO with
            | Some g => ghostHighlightedPort g
            | None => highlightedPort dbi
            end in
          let ts := clearInterval (interval dbi) (timers w) in
          let h := fresh_handle ts in
          let t := mkTicker h boundary.1 boundary.2 (uid el) (matrix el) pathInfo ghostIO
                     None in
          let dbi := mkInterval (nonzero boundary.1) (nonzero boundary.2) (Some h)
                       (xOffset dbi) (yOffset dbi) highlighted in
          Some (Ok (set_timers (ts ++ [t]) (set_dragBoundaryInterval dbi w)))
        else Some (Ok w)
      else Some (Ok w)
  end.

Definition setAttribute (a v : string) (el : Element) : Element :=
  mkElement (uid el) (classList el) (<[a := v]> (attributes el)) (matrix el).

Definition setInputAndOutputEdges
    (inputEdges outputEdges : list (nat * (number * number * number * number)))
    (dx dy : number) (cs : list Child) : list Child :=
  let cs := foldl (fun cs e =>
                     let '(el, (p0, p1, p6, p7)) := e in
                     update_where (fun x => Nat.eqb (uid x) el)
                       (setAttribute "d"
                          (IOPort_makeConnectionPath C p0 p1 (p6 + dx) (p7 + dy) None)) cs)
                  cs inputEdges in
  foldl (fun cs e =>
           let '(el, (p0, p1, p6, p7)) := e in
           update_where (fun x => Nat.eqb (uid x) el)
             (setAttribute "d"
                (IOPort_makeConnectionPath C (p0 + dx) (p1 + dy) p6 p7 None)) cs)
        cs outputEdges.

Definition replace_ticker (t : Ticker) (ts : list Ticker) : list Ticker :=
  map (fun t' => if Pos.eqb (handle t') (handle t) then t else t') ts.

(** The function that the interval runs, every 1000 / 60 ms.  It writes to
    the two matrices that it holds: [workflowMatrix], which is the matrix of
    the workflow as long as the attribute has not been set anew, and [mx],
    which is the matrix of the element [el] where the element is below the
    workflow. *)
Definition tick (t : Ticker) w : result (Workflow M) :=
  let step := dragBoundaryTranslation w in
  let moveX := if Z.eqb (boundary_x t) 1 then step
               else if Z.eqb (boundary_x t) (-1) then (- step)%js else Fin 0 in
  let moveY := if Z.eqb (boundary_y t) 1 then step
               else if Z.eqb (boundary_y t) (-1) then (- step)%js else Fin 0 in
  let m := match workflowMatrix t with Some m => m | None => transform w end in
  let m' := mkMatrix (ma m) (mb m) (mc m) (md m) (me m - moveX) (mf m - moveY) in
  let w := match workflowMatrix t with Some _ => w | None => set_transform m' w end in
  let workflowMatrix' := match workflowMatrix t with Some _ => Some m' | None => None end in
  let dbi := dragBoundaryInterval w in
  let w := set_dragBoundaryInterval
             (mkInterval (on_x dbi) (on_y dbi) (interval dbi)
                (xOffset dbi + adaptToScale w moveX) (yOffset dbi + adaptToScale w moveY)
                (highlightedPort dbi)) w in
  let mx0 := match find_element (dragged t) (children w) with
             | Some el => matrix el
             | None => mx t
             end in
  let mx' := mkMatrix (ma mx0) (mb mx0) (mc mx0) (md mx0)
               (me mx0 + adaptToScale w moveX) (mf mx0 + adaptToScale w moveY) in
  let w := set_children
             (update_where (fun e => Nat.eqb (uid e) (dragged t)) (set_matrix mx')
                           (children w)) w in
  match pathInfo t, ghostIO t with
  | Some info, _ =>
      let w := set_children
                 (setInputAndOutputEdges (inputEdges info) (outputEdges info)
                    (me mx' - startX info) (mf mx' - startY info) (children w)) w in
      let t := mkTicker (handle t) (boundary_x t) (boundary_y t) (dragged t) mx'
                 (pathInfo t) (ghostIO t) workflowMatrix' in
      Ok (set_timers (replace_ticker t (timers w)) w)
  | None, Some g =>
      let d := IOPort_makeConnectionPath C (px (origin g)) (py (origin g)) (me mx') (mf mx')
                 (Some (edgeDirection g)) in
      let w := set_children
                 (map (fun c => if is_child (edge g) c
                                then mkChild (self c) (map (setAttribute "d" d) (nested c))
                                else c)
                      (children w)) w in
      sorted ← getSortedConnectionPorts C (connectionPorts g) (mkPoint (me mx') (mf mx'))
                 (portToOriginTransformation g);
      w ← removeHighlightedPort (highlightedPort (dragBoundaryInterval w)) (edgeDirection g) w;
      r ← setHighlightedPort sorted.2 (edgeDirection g) w;
      let w := r.1 in
      let dbi := dragBoundaryInterval w in
      let w := set_dragBoundaryInterval
                 (mkInterval (on_x dbi) (on_y dbi) (interval dbi) (xOffset dbi) (yOffset dbi)
                    r.2) w in
      let w := translateGhostNodeAndShowIfNecessary (dragged t) (nodeToMouseDistance g)
                 (bool_decide (r.2 ≠ None)) (mkPoint (me mx') (mf mx')) w in
      let g := mkGhostIO (edge g) (nodeToMouseDistance g) sorted.1 (ghostHighlightedPort g)
                 (origin g) (coords g) (portToOriginTransformation g) (edgeDirection g) in
      let t := mkTicker (handle t) (boundary_x t) (boundary_y t) (dragged t)
                 (mkMatrix (Fin 1) (Fin 0) (Fin 0) (Fin 1) (me mx') (mf mx'))
                 (pathInfo t) (Some g) workflowMatrix' in
      Ok (set_timers (replace_ticker t (timers w)) w)
  | None, None =>
      let t := mkTicker (handle t) (boundary_x t) (boundary_y t) (dragged t) mx'
                 (pathInfo t) (ghostIO t) workflowMatrix' in
      Ok (set_timers (replace_ticker t (timers w)) w)
  end.

Definition getBoundaryZonesXYAxes (x y : number) w : result (Workflow M * (Z * Z)) :=
  match workflowBoundingClientRect w with
  | None => Throw (TypeError "Cannot read property 'left' of undefined")
  | Some r =>
      let isLeftBoundary := (x <? left r + dragBoundary w)%js in
      let isRightBoundary := (x >? right r - dragBoundary w)%js in
      let isTopBoundary := (y <? top r + dragBoundary w)%js in
      let isBottomBoundary := (y >? bottom r - dragBoundary w)%js in
      let w :=
        if negb isLeftBoundary && negb isRightBoundary
           && negb isTopBoundary && negb isBottomBoundary
        then
          match interval (dragBoundaryInterval w) with
          | Some h =>
              let dbi := dragBoundaryInterval w in
              set_dragBoundaryInterval
                (mkInterval false false None (xOffset dbi) (yOffset dbi) None)
                (set_timers (clearInterval (Some h) (timers w)) w)
          | None => w
          end
        else w in
      Ok (w, (if isLeftBoundary then (-1)%Z else if isRightBoundary then 1%Z else 0%Z,
              if isTopBoundary then (-1)%Z else if isBottomBoundary then 1%Z else 0%Z))
  end.

Definition setDragBoundaryIntervalToDefault w : Workflow M :=
  let w :=
    match interval (dragBoundaryInterval w) with
    | Some h =>
        let dbi := dragBoundaryInterval w in
        set_dragBoundaryInterval
          (mkInterval false false None (xOffset dbi) (yOffset dbi) None)
          (set_timers (clearInterval (Some h) (timers w)) w)
    | None => w
    end in
  let dbi := dragBoundaryInterval w in
  set_dragBoundaryInterval
    (mkInterval (on_x dbi) (on_y dbi) (interval dbi) (Fin 0) (Fin 0) (highlightedPort dbi)) w.

(** [setModelPosition(obj, x, y, emitEvents = true)]: the object as the
    call leaves it, and the engine. *)
Definition setModelPosition (obj : NodeModel) (x y : number) (emitEvents : option bool)
    w : NodeModel * Workflow M :=
  let emitEvents := default true emitEvents in
  let update : gmap string number := <["sbg:y" := y]> (<["sbg:x" := x]> ∅) in
  let changeEventData := Change "move" None in
  let w := if emitEvents then emit "beforeChange" changeEventData w else w in
  match customProps obj with
  | None => (mkNode (connectionId obj) (isVisible obj) (Some update), w)
  | Some props =>
      let obj := mkNode (connectionId obj) (isVisible obj) (Some (update ∪ props)) in
      (obj, if emitEvents then emit "afterChange" changeEventData w else w)
  end.
End Boundary.

(** ** Redrawing, creating steps, panning and dragging *)

(** [Workflow.canDrawIn(element)], on the bounding rectangle of the element. *)
Definition canDrawIn (clientBounds : DOMRect) : bool :=
  negb (width clientBounds === Fin 0)%js.

(** What the listeners of a pan keep between the start of the drag and its
    moves: [matrix.e] and [matrix.f] at the start. *)
Record PanStart : Type := mkPanStart { pan_x : number; pan_y : number }.

(** [a || b] where [a] is a property that is a number or missing. *)
Definition or_else (a : option number) (b : number) : number :=
  match a with
  | Some v => if truthy v then v else b
  | None => b
  end.

Section Handlers.
Context {M : Type} (L : Layout) (C : Collaborators M).
Implicit Type w : Workflow M.

Definition redraw (m : option M) w : result (Workflow M) :=
  let w := match m with Some m => set_model m w | None => w end in
  renderModel L C (model w) w.

Definition resetTransform w : result (Workflow M) :=
  let w := set_transform_attribute identity w in
  scaleWorkflow L None None w.

(** The listeners that [addEventListeners] gives to [domEvents.drag] for
    ".pan-handle": the start of the drag, and a move by [(dx, dy)]. *)
Definition onPanStart w : PanStart :=
  mkPanStart (me (transform w)) (mf (transform w)).

Definition onPanMove (s : PanStart) (dx dy : number) w : Workflow M :=
  let m := transform w in
  set_transform (mkMatrix (ma m) (mb m) (mc m) (md m) (pan_x s + dx) (pan_y s + dy)) w.

(** The listener of "app.create.step" installed by [attachEvents];
    [random_x] and [random_y] are the two values of [Math.random() * 1000]. *)
Definition onCreateStep (step : NodeModel) (random_x random_y : number)
    w : result (Workflow M) :=
  let changeEventData := Change "step.create" None in
  let w := emit "beforeChange" changeEventData w in
  match customProps step with
  | None => Throw (TypeError "Cannot read property 'sbg:x' of undefined")
  | Some props =>
      let x := or_else (props !! "sbg:x") random_x in
      let y := or_else (props !! "sbg:y") random_y in
      let el := makeNodeTemplate C step x y in
      let w := set_children (children w ++ [el]) w in
      w ← scaleWorkflow L (Some (scale w)) None w;
      Ok (emit "afterChange" changeEventData w)
  end.

(** [this.workflowBoundingClientRect], of which [property] is about to be
    read. *)
Definition rect_for (property : string) w : result DOMRect :=
  match workflowBoundingClientRect w with
  | Some r => Ok r
  | None => Throw (TypeError ("Cannot read property '" +:+ property +:+ "' of undefined"))
  end.

Definition getScaledDeltaXYForDrag (boundary : Z * Z) (ev : ClientPoint)
    (startX startY dx dy : number) w : result SVGPoint :=
  let dbi := dragBoundaryInterval w in
  if nonzero boundary.1 || nonzero boundary.2 then
    sdx ← (if nonzero boundary.1 then
             x ← (if Z.eqb boundary.1 1
                  then r ← rect_for "right" w; Ok (right r - dragBoundary w)%js
                  else r ← rect_for "left" w; Ok (left r + dragBoundary w)%js);
             edgeX ← transformScreenCTMtoCanvas L w x (Fin 0);
             Ok (px edgeX - startX)%js
           else Ok (adaptToScale w dx + xOffset dbi)%js);
    sdy ← (if nonzero boundary.2 then
             y ← (if Z.eqb boundary.2 1
                  then r ← rect_for "bottom" w; Ok (bottom r - dragBoundary w)%js
                  else r ← rect_for "top" w; Ok (top r + dragBoundary w)%js);
             edgeY ← transformScreenCTMtoCanvas L w (Fin 0) y;
             Ok (py edgeY - startY)%js
           else Ok (adaptToScale w dy + yOffset dbi)%js);
    Ok (mkPoint sdx sdy)
  else
    Ok (mkPoint (adaptToScale w dx + xOffset dbi) (adaptToScale w dy + yOffset dbi)).
End Handlers.

(** * Vocabulary of the statements *)

(** A matrix whose six entries are finite. *)
Definition QMatrix (a b c d e f : Q) : SVGMatrix :=
  mkMatrix (Fin a) (Fin b) (Fin c) (Fin d) (Fin e) (Fin f).

(** A rectangle whose four numbers are finite. *)
Definition QRect (l t w h : Q) : DOMRect := mkRect (Fin l) (Fin t) (Fin w) (Fin h).

(** Where the browser draws the point [p] of the canvas: the forward
    transform, of which [transformScreenCTMtoCanvas] is the inverse. *)
Definition forward {M : Type} (L : Layout) (w : Workflow M) (p : SVGPoint) : SVGPoint :=
  matrixTransform p (getScreenCTM L w).

(** A plugin that has the three methods that [hookPlugins] calls. *)
Definition registers_all (p : SVGPlugin) : bool :=
  registerWorkflowModel p && registerOnBeforeChange p && registerOnAfterChange p.

(** A mapping from ports to distances is ranked when the distances do not
    decrease along it. *)
Definition ranked (m : ElementMap) : Prop :=
  forall (i j : nat) (e e' : nat * number),
    (i <= j)%nat -> m !! i = Some e -> m !! j = Some e' -> (e.2 <=? e'.2)%js = true.

Fixpoint pow2 (n : nat) : Q :=
  match n with
  | O => 1
  | S n => 2 * pow2 n
  end.

(** The interval and the timers agree: without a handle nothing is active,
    and a running interval is the one whose handle is recorded. *)
Definition consistent {M : Type} (w : Workflow M) : Prop :=
  (interval (dragBoundaryInterval w) = None ->
   on_x (dragBoundaryInterval w) = false /\ on_y (dragBoundaryInterval w) = false
   /\ highlightedPort (dragBoundaryInterval w) = None)
  /\ (forall t, t ∈ timers w -> interval (dragBoundaryInterval w) = Some (handle t)).

(** The cursor at [(x, y)] is in none of the four boundary zones. *)
Definition in_interior {M : Type} (w : Workflow M) (r : DOMRect) (x y : number) : Prop :=
  (x <? left r + dragBoundary w)%js = false
  /\ (x >? right r - dragBoundary w)%js = false
  /\ (y <? top r + dragBoundary w)%js = false
  /\ (y >? bottom r - dragBoundary w)%js = false.

(** The machine of the drag boundary: a step is a call of one of its four
    functions, a tick being that of an interval that runs. *)
Section Machine.
Context {M : Type} (C : Collaborators M).
Implicit Type w : Workflow M.

Inductive boundary_step : Workflow M -> Workflow M -> Prop :=
| step_hit (fuel : nat) (el : Element) (boundary : Z * Z) (pathInfo : option PathInfo)
    (ghostIO : option GhostIO) w w' :
    setDragBoundaryIntervalIfNecessary fuel el boundary pathInfo ghostIO w = Some (Ok w') ->
    boundary_step w w'
| step_tick (t : Ticker) w w' :
    t ∈ timers w -> tick C t w = Ok w' -> boundary_step w w'
| step_move (x y : number) (zones : Z * Z) w w' :
    getBoundaryZonesXYAxes x y w = Ok (w', zones) -> boundary_step w w'
| step_end w :
    boundary_step w (setDragBoundaryIntervalToDefault w).

(** The states that the machine reaches from one where no interval runs. *)
Inductive reachable : Workflow M -> Prop :=
| reach_idle w :
    dragBoundaryInterval w = defaultInterval -> timers w = [] -> reachable w
| reach_step w w' :
    reachable w -> boundary_step w w' -> reachable w'.
End Machine.

(** Two matrices whose entries are the same numbers. *)
Definition same_matrix (m n : SVGMatrix) : Prop :=
  ma m ≈ ma n /\ mb m ≈ mb n /\ mc m ≈ mc n
  /\ md m ≈ md n /\ me m ≈ me n /\ mf m ≈ mf n.

(** A scale strictly between [minScale] and [maxScale]. *)
Definition in_range (s : number) : bool := (minScale <? s)%js && (s <? maxScale)%js.

(** The indices, counted from [k], of the plugins of [l] that satisfy [P],
    in the order of [l]. *)
Definition called_from (P : SVGPlugin -> bool) (k : nat) (l : list SVGPlugin) : list nat :=
  map fst (List.filter (fun ip : nat * SVGPlugin => P ip.2) (imap (fun j => pair (k + j)%nat) l)).

(** What [redrawEdges] relies on in [GraphEdge.makeTemplate]: the template
    of a connection is an element of class "edge" that carries the
    identifiers of the two ports, and is of class "highlighted" when it is
    made with that state and not when it is made without a state. *)
Definition edge_templates_faithful {M : Type} (C : Collaborators M) : Prop :=
  forall (c : Connection) (states : string),
    contains "edge" (self (makeEdgeTemplate C c states)) = true
    /\ getAttribute "data-source-connection" (self (makeEdgeTemplate C c states))
       = Some (source_id c)
    /\ getAttribute "data-destination-connection" (self (makeEdgeTemplate C c states))
       = Some (destination_id c)
    /\ contains "highlighted" (self (makeEdgeTemplate C c "highlighted")) = true
    /\ contains "highlighted" (self (makeEdgeTemplate C c "")) = false.

(** At most one interval runs, and it is the one whose handle the engine
    holds: either no handle is held and no interval runs, or the interval
    of the handle that is held is the only one that runs. *)
Definition one_interval {M : Type} (w : Workflow M) : Prop :=
  (interval (dragBoundaryInterval w) = None /\ timers w = [])
  \/ exists t, timers w = [t] /\ interval (dragBoundaryInterval w) = Some (handle t).

(** * Concrete collaborators, layouts and states

    A model without steps or connections, a page whose [<svg>] root covers
    [w] by [h] pixels from the origin and holds a content of 400 by 300, and
    the engine as the constructor leaves it. *)

Definition no_collaborators : Collaborators unit :=
  mkCollaborators unit
    (fun _ => []) (fun _ => []) (fun _ => []) (fun _ => [])
    (fun _ m => m) (fun _ m => m) (fun _ m => m) (fun _ _ m => m)
    (fun n => n)
    (fun _ _ _ => mkChild (mkElement 0 {["node"]} ∅ identity) [])
    (fun _ _ => mkChild (mkElement 0 {["edge"]} ∅ identity) [])
    (fun _ _ _ _ _ => "")
    (fun _ _ _ _ => Fin 0).

Definition page (w h : number) : Layout :=
  mkLayout identity (mkRect (Fin 0) (Fin 0) w h)
           (fun m _ => mkRect (me m) (mf m) (Fin 400 * ma m) (Fin 300 * md m))
           (fun m => m).

Definition fresh : Workflow unit :=
  mkWorkflow (Fin 1) identity {["workflow"]} [] tt [] false
    (Fin 50) (Fin 5) defaultInterval None [] [] [].

(** The fresh engine with one node, of identity 1, that has two ports, of
    identities 2 and 3. *)
Definition with_port : Workflow unit :=
  set_children [mkChild (mkElement 1 {["node"]} ∅ identity)
                        [mkElement 2 {["port"]} ∅ identity;
                         mkElement 3 {["port"]} ∅ identity]] fresh.

(** The fresh engine once a drag has recorded the rectangle of the root. *)
Definition dragging : Workflow unit :=
  set_workflowBoundingClientRect (Some (QRect 0 0 800 600)) fresh.

(** The cursor hits the right zone while the node 1 is dragged. *)
Definition hit_right : Workflow unit :=
  match setDragBoundaryIntervalIfNecessary 4 (mkElement 1 {["node"]} ∅ identity)
          (1%Z, 0%Z) None None
          (set_workflowBoundingClientRect (Some (QRect 0 0 800 600)) with_port) with
  | Some (Ok w) => w
  | _ => with_port
  end.

(** The interval runs once. *)
Definition tick_once (w : Workflow unit) : Workflow unit :=
  match timers w with
  | t :: _ => match tick no_collaborators t w with Ok w' => w' | Throw _ => w end
  | [] => w
  end.

Definition scrolling : Workflow unit := tick_once (tick_once hit_right).

(** A model that is the list of its connections, and the engine with one
    edge, of identity 10, which is selected. *)
Definition wired : Collaborators (list Connection) :=
  mkCollaborators (list Connection)
    (fun _ => []) (fun _ => []) (fun _ => []) (fun m => m)
    (fun _ m => m) (fun _ m => m) (fun _ m => m)
    (fun s d m =>
       List.filter (fun c => negb (bool_decide (Some (source_id c) = s)
                                   && bool_decide (Some (destination_id c) = d))) m)
    (fun n => n)
    (fun _ _ _ => mkChild (mkElement 0 {["node"]} ∅ identity) [])
    (fun c states =>
       mkChild (mkElement 10 ({["edge"]} ∪ (if String.eqb states "" then ∅ else {[states]}))
                  (<["data-source-connection" := source_id c]>
                     (<["data-destination-connection" := destination_id c]> ∅))
                  identity) [])
    (fun _ _ _ _ _ => "")
    (fun _ _ _ _ => Fin 0).

Definition selected_edge : Element :=
  mkElement 10 {["edge"; "selected"]}
    (<["data-source-connection" := "a/out"]>
       (<["data-destination-connection" := "b/in"]> ∅))
    identity.

Definition edge_selected : Workflow (list Connection) :=
  mkWorkflow (Fin 1) identity {["workflow"]} [mkChild selected_edge []]
    [mkConnection "a/out" "b/in" true] [] false
    (Fin 50) (Fin 5) defaultInterval None [] [] [].

(** The engine as the constructor leaves it with two plugins, of which the
    second alone has [afterRender]. *)
Definition with_plugins : Workflow unit :=
  mkWorkflow (Fin 1) identity {["workflow"]} [] tt
    [mkPlugin true true true false; mkPlugin true true true true] false
    (Fin 50) (Fin 5) defaultInterval None [] []
    [(0%nat, "registerWorkflowModel"); (0%nat, "registerOnBeforeChange");
     (0%nat, "registerOnAfterChange");
     (1%nat, "registerWorkflowModel"); (1%nat, "registerOnBeforeChange");
     (1%nat, "registerOnAfterChange"); (1%nat, "afterRender")].

(** The engine with the edge of [edge_selected] highlighted, and a node. *)
Definition edge_highlighted : Workflow (list Connection) :=
  mkWorkflow (Fin 1) identity {["workflow"]}
    [mkChild (mkElement 10 {["edge"; "highlighted"]}
                (<["data-source-connection" := "a/out"]>
                   (<["data-destination-connection" := "b/in"]> ∅))
                identity) [];
     mkChild (mkElement 1 {["node"]} ∅ identity) []]
    [mkConnection "a/out" "b/in" true; mkConnection "b/out" "c/in" false] [] false
    (Fin 50) (Fin 5) defaultInterval None [] [] [].

(** Collaborators whose [Geometry.distance] is the distance along x. *)
Definition by_e : Collaborators unit :=
  mkCollaborators unit
    (fun _ => []) (fun _ => []) (fun _ => []) (fun _ => [])
    (fun _ m => m) (fun _ m => m) (fun _ m => m) (fun _ _ m => m)
    (fun n => n)
    (fun _ _ _ => mkChild (mkElement 0 {["node"]} ∅ identity) [])
    (fun _ _ => mkChild (mkElement 0 {["edge"]} ∅ identity) [])
    (fun _ _ _ _ _ => "")
    (fun x1 _ x2 _ => Math_abs (x2 - x1)).

(** The fresh engine zoomed out to 0.5 around the point (100, 100) of the
    screen, and the same once a drag has recorded the rectangle of the root. *)
Definition zoomed : Workflow unit :=
  mkWorkflow (Fin 0.5) (QMatrix 0.5 0 0 0.5 50 50) {["workflow"]} [] tt [] false
    (Fin 50) (Fin 5) defaultInterval None [] [] [].

Definition zoomed_dragging : Workflow unit :=
  set_workflowBoundingClientRect (Some (QRect 0 0 800 600)) zoomed.

(** A model that is the list of its steps, each drawn as a node that
    carries its identifier, and the engine with two steps of which the
    first, of identity 1, is selected. *)
Definition stepped : Collaborators (list NodeModel) :=
  mkCollaborators (list NodeModel)
    (fun m => m) (fun _ => []) (fun _ => []) (fun _ => [])
    (fun id m => List.filter (fun n => negb (bool_decide (Some (connectionId n) = id))) m)
    (fun _ m => m) (fun _ m => m) (fun _ _ m => m)
    (fun n => n)
    (fun n _ _ =>
       mkChild (mkElement (String.length (connectionId n)) {["node"; "step"]}
                  (<["data-connection-id" := connectionId n]> ∅) identity) [])
    (fun _ _ => mkChild (mkElement 0 {["edge"]} ∅ identity) [])
    (fun _ _ _ _ _ => "")
    (fun _ _ _ _ => Fin 0).

Definition step_selected : Workflow (list NodeModel) :=
  mkWorkflow (Fin 1) identity {["workflow"]}
    [mkChild (mkElement 1 {["node"; "step"; "selected"]}
                (<["data-connection-id" := "a"]> ∅) identity) [];
     mkChild (mkElement 2 {["node"; "step"]}
                (<["data-connection-id" := "bb"]> ∅) identity) []]
    [mkNode "a" true (Some (<["sbg:x" := Fin 10]> (<["sbg:y" := Fin 10]> ∅)));
     mkNode "bb" true (Some (<["sbg:x" := Fin 200]> (<["sbg:y" := Fin 10]> ∅)))]
    [] false (Fin 50) (Fin 5) defaultInterval None [] [] [].

(** The fresh engine with one node, of identity 1, that has a label, of
    identity 2, and a port, of identity 3. *)
Definition labelled : Workflow unit :=
  set_children [mkChild (mkElement 1 {["node"]} ∅ identity)
                        [mkElement 2 {["label"]} ∅ identity;
                         mkElement 3 {["port"]} ∅ identity]] fresh.



(** * Properties *)

(** ** Numbers *)

Lemma jlt_Fin (a b : Q) : (Fin a <? Fin b)%js = true <-> a < b.
Proof.
  simpl. rewrite Qlt_alt. destruct (a ?= b); intuition congruence.
Qed.

Lemma jle_Fin (a b : Q) : (Fin a <=? Fin b)%js = true <-> a <= b.
Proof.
  simpl. rewrite Qle_alt. destruct (a ?= b); intuition congruence.
Qed.

Lemma jeq_Fin (a b : Q) : (Fin a === Fin b)%js = true <-> a == b.
Proof.
  simpl. rewrite Qeq_alt. destruct (a ?= b); intuition congruence.
Qed.

Lemma jlt_Fin_false (a b : Q) : (Fin a <? Fin b)%js = false <-> b <= a.
Proof.
  rewrite <- not_true_iff_false, jlt_Fin. split; [apply Qnot_lt_le | apply Qle_not_lt].
Qed.

Lemma jle_Fin_false (a b : Q) : (Fin a <=? Fin b)%js = false <-> b < a.
Proof.
  rewrite <- not_true_iff_false, jle_Fin. split; [apply Qnot_le_lt | apply Qlt_not_le].
Qed.

(** [Math.min(x, 1)] is never above 1, whatever [x] is. *)
Lemma Math_min_capped (x c : number) : (c <? Math_min x c)%js = false.
Proof.
  unfold Math_min.
  destruct (isNaN x || isNaN c) eqn:Hnan; [by destruct c |].
  destruct (c <? x)%js eqn:Hlt; [| done].
  destruct c as [q | | |]; try done. unfold jlt.
  by rewrite (proj1 (Qeq_alt q q) (Qeq_refl q)).
Qed.

Lemma jadd_Fin (a b : Q) : (Fin a + Fin b)%js = Fin (a + b).
Proof. reflexivity. Qed.
Lemma jsub_Fin (a b : Q) : (Fin a - Fin b)%js = Fin (a + - b).
Proof. reflexivity. Qed.
Lemma jmul_Fin (a b : Q) : (Fin a * Fin b)%js = Fin (a * b).
Proof. reflexivity. Qed.
Lemma jneg_Fin (a : Q) : (- Fin a)%js = Fin (- a).
Proof. reflexivity. Qed.
Create Rewrite HintDb js.
#[global] Hint Rewrite jadd_Fin jsub_Fin jmul_Fin jneg_Fin : js.
Lemma jdiv_Fin (a b : Q) : ~ b == 0 -> (Fin a / Fin b)%js = Fin (a / b).
Proof.
  intros Hb. unfold jdiv. destruct (b ?= 0) eqn:E; try reflexivity.
  apply Qeq_alt in E. contradiction.
Qed.
Lemma jeq_Fin_0 (a : Q) : ~ a == 0 -> (Fin a === Fin 0)%js = false.
Proof.
  intros Ha. apply not_true_iff_false. by rewrite jeq_Fin.
Qed.

Lemma inverse_QMatrix (a b c d e f : Q) :
  ~ a * d + - (b * c) == 0 ->
  inverse (QMatrix a b c d e f) =
    Ok (QMatrix (d / (a * d + - (b * c))) (- b / (a * d + - (b * c)))
                (- c / (a * d + - (b * c))) (a / (a * d + - (b * c)))
                ((c * f + - (d * e)) / (a * d + - (b * c)))
                ((b * e + - (a * f)) / (a * d + - (b * c)))).
Proof.
  intros Hdet. unfold inverse, determinant, QMatrix. cbn [ma mb mc md me mf].
  rewrite !jmul_Fin, !jsub_Fin, !jneg_Fin, jeq_Fin_0 by done.
  by rewrite !jdiv_Fin by done.
Qed.


(** From here on the operations on numbers are unfolded on request only. *)
Arguments jlt : simpl never.
Arguments jle : simpl never.
Arguments jeq : simpl never.
Arguments jadd : simpl never.
Arguments jmul : simpl never.
Arguments jdiv : simpl never.
Arguments jneg : simpl never.
Arguments Math_min : simpl never.
Arguments Math_max : simpl never.
Arguments Math_abs : simpl never.

(** ** The result monad *)

Lemma bind_Ok {A B : Type} (c : result A) (k : A -> result B) (b : B) :
  c ≫= k = Ok b -> exists a, c = Ok a /\ k a = Ok b.
Proof. destruct c; simpl; [eauto | discriminate]. Qed.

Ltac inv_bind H :=
  let a := fresh "v" in
  let H1 := fresh "H" in
  apply bind_Ok in H; destruct H as (a & H1 & H).

(** ** The fresh engine *)

(** [fresh] is the engine that the constructor returns without plugins. *)
Example constructor_fresh :
  constructor (page (Fin 800) (Fin 600)) no_collaborators tt None = Ok fresh.
Proof. vm_compute. reflexivity. Qed.

(** ** C1: requests for a scale out of range *)

Section ViewportFacts.
Context {M : Type} (L : Layout).
Implicit Type w : Workflow M.

Lemma scaleWorkflow_scale scaleCoefficient ev w w' :
  scaleWorkflow L scaleCoefficient ev w = Ok w' ->
  scale w' = default (Fin 1) scaleCoefficient.
Proof.
  unfold scaleWorkflow. intros H. inv_bind H. repeat case_match; by simplify_eq.
Qed.

Lemma scaleWorkflow_transform scaleCoefficient ev w w' :
  scaleWorkflow L scaleCoefficient ev w = Ok w' ->
  ma (transform w') = default (Fin 1) scaleCoefficient
  /\ md (transform w') = default (Fin 1) scaleCoefficient.
Proof.
  unfold scaleWorkflow. intros H. inv_bind H. repeat case_match; by simplify_eq.
Qed.
End ViewportFacts.

(** C1 (as amended).  The range of the scale is guarded by the listener of
    the mouse wheel, not by [scaleWorkflow]: a wheel event whose factor
    [scale + deltaY / 500] is at most [minScale] or at least [maxScale]
    leaves the whole engine, scale and transform included, as it was and
    raises nothing; [scaleWorkflow] itself takes any factor. *)
Theorem onMouseWheel_out_of_range {M : Type} (L : Layout) (ev : MouseWheelEvent)
    (w : Workflow M) :
  ((scale w + deltaY ev / Fin 500 <=? minScale)%js
   || (scale w + deltaY ev / Fin 500 >=? maxScale)%js) = true ->
  onMouseWheel L ev w = Ok (w, false)
  /\ forall factor at_ w', scaleWorkflow L (Some factor) at_ w = Ok w' ->
       scale w' = factor /\ ma (transform w') = factor /\ md (transform w') = factor.
Proof.
  intros Hout. split.
  - unfold onMouseWheel. rewrite Hout. by destruct (isDragging w).
  - intros factor at_ w' H.
    pose proof (scaleWorkflow_scale L _ _ _ _ H).
    pose proof (scaleWorkflow_transform L _ _ _ _ H) as [? ?]. done.
Qed.

(** A wheel event of [deltaY = 600] on the fresh engine asks for the scale
    [1 + 600 / 500 = 2.2]. *)
Lemma onMouseWheel_out_of_range_witness :
  onMouseWheel (page (Fin 800) (Fin 600))
               (mkWheel (mkClient (Fin 10) (Fin 10)) (Fin 600)) fresh = Ok (fresh, false)
  /\ forall factor at_ w',
       scaleWorkflow (page (Fin 800) (Fin 600)) (Some factor) at_ fresh = Ok w' ->
       scale w' = factor /\ ma (transform w') = factor /\ md (transform w') = factor.
Proof.
  apply (onMouseWheel_out_of_range (page (Fin 800) (Fin 600))
           (mkWheel (mkClient (Fin 10) (Fin 10)) (Fin 600)) fresh).
  reflexivity.
Defined.

(** C1 as stated fails: [scaleWorkflow(3)] is applied although 3 is above
    [maxScale]. *)
Lemma scaleWorkflow_applies_out_of_range :
  (maxScale <? Fin 3)%js = true
  /\ exists w', scaleWorkflow (page (Fin 800) (Fin 600)) (Some (Fin 3)) None fresh = Ok w'
                /\ scale w' = Fin 3 /\ scale w' <> scale fresh
                /\ transform w' <> transform fresh.
Proof.
  split; [reflexivity |].
  eexists. split; [reflexivity |]. repeat split; discriminate.
Qed.

(** ** C2: fitting the workflow to the viewport *)

(** [scaleWorkflow] raises nothing but the error of [inverse] and the
    TypeError of a setter; with the factor 1, the error of [inverse] only. *)
Lemma scaleWorkflow_throws {M : Type} (L : Layout) scaleCoefficient ev (w : Workflow M) e :
  scaleWorkflow L scaleCoefficient ev w = Throw e ->
  e = InvalidStateError \/ exists what, e = TypeError what.
Proof.
  unfold scaleWorkflow, transformScreenCTMtoCanvas.
  destruct (inverse _) as [inv | e'] eqn:Hi; cbn [mbind result_bind].
  - repeat case_match; intros ?; simplify_eq; eauto.
  - intros [= <-]. left. unfold inverse in Hi. repeat case_match; by simplify_eq.
Qed.

Lemma scaleWorkflow_1_throws {M : Type} (L : Layout) ev (w : Workflow M) e :
  scaleWorkflow L (Some (Fin 1)) ev w = Throw e -> e = InvalidStateError.
Proof.
  unfold scaleWorkflow, transformScreenCTMtoCanvas.
  destruct (inverse _) as [inv | e'] eqn:Hi; cbn [mbind result_bind].
  - cbn [from_option id isFinite negb scale set_transform set_scale children].
    assert (E : isFinite (Fin 1 + (Fin 1 - Fin 1) / (Fin 1 * Fin 2))%js = true) by reflexivity.
    rewrite E, andb_false_r. discriminate.
  - intros [= <-]. unfold inverse in Hi. repeat case_match; by simplify_eq.
Qed.

(** C2 (as amended).  When [fitToViewport] returns, the scale is not above
    1, whatever the rectangles of the content and of the viewport.  Its
    error is raised only when the bounding rectangle of the root has width 0
    or height 0; and it is raised then, provided that the scaling back to 1
    that opens the function succeeds, that is, that the transform in place
    can be inverted. *)
Theorem fitToViewport_capped_or_no_viewport {M : Type} (L : Layout) (w : Workflow M) :
  (forall w', fitToViewport L w = Ok w' -> (Fin 1 <? scale w')%js = false)
  /\ (forall message, fitToViewport L w = Throw (Error message) ->
        ((width (rootRect L) === Fin 0)%js || (height (rootRect L) === Fin 0)%js) = true)
  /\ (forall w1, scaleWorkflow L (Some (Fin 1)) None w = Ok w1 ->
        ((width (rootRect L) === Fin 0)%js || (height (rootRect L) === Fin 0)%js) = true ->
        exists message, fitToViewport L w = Throw (Error message)).
Proof.
  unfold fitToViewport.
  destruct (scaleWorkflow L (Some (Fin 1)) None w) as [w1 | e] eqn:H1; simpl.
  - destruct ((width (rootRect L) === Fin 0)%js || (height (rootRect L) === Fin 0)%js) eqn:Hz.
    + repeat split; [discriminate | eauto].
    + match goal with
      | |- context [scaleWorkflow L (Some ?s) None ?w0] =>
          destruct (scaleWorkflow L (Some s) None w0) as [w2 | e] eqn:H2
      end; simpl.
      * repeat split; [| discriminate | discriminate].
        intros w' [= <-]. simpl.
        rewrite (scaleWorkflow_scale L _ _ _ _ H2). apply Math_min_capped.
      * apply scaleWorkflow_throws in H2 as [-> | [what ->]];
          repeat split; discriminate.
  - apply scaleWorkflow_throws in H1 as [-> | [what ->]];
      repeat split; discriminate.
Qed.

(** On a page of 800 by 600 pixels the fresh engine is fitted; on a page
    whose root has no width the error is raised. *)
Lemma fitToViewport_capped_or_no_viewport_witness :
  (exists w', fitToViewport (page (Fin 800) (Fin 600)) fresh = Ok w'
              /\ (Fin 1 <? scale w')%js = false)
  /\ exists message, fitToViewport (page (Fin 0) (Fin 600)) fresh = Throw (Error message).
Proof.
  split.
  - eexists. split; [vm_compute; reflexivity |].
    apply (proj1 (fitToViewport_capped_or_no_viewport (page (Fin 800) (Fin 600)) fresh)).
    vm_compute; reflexivity.
  - eapply (proj2 (proj2 (fitToViewport_capped_or_no_viewport (page (Fin 0) (Fin 600)) fresh)));
      vm_compute; reflexivity.
Defined.

(** C2 as stated fails: the error of [fitToViewport] is not raised on
    every root without width.  A viewport that is exactly as high as the
    padding, 100, makes [fitToViewport] divide by 0 and leaves the scale 0;
    from then on the transform has no inverse, and a call on a root without
    width raises the error of [inverse], not the one of [fitToViewport]. *)
Lemma fitToViewport_after_scale_0 :
  exists w1, fitToViewport (page (Fin 800) (Fin 100)) fresh = Ok w1
    /\ scale w1 = Fin 0
    /\ (width (rootRect (page (Fin 0) (Fin 600))) === Fin 0)%js = true
    /\ fitToViewport (page (Fin 0) (Fin 600)) w1 = Throw InvalidStateError
    /\ forall message, fitToViewport (page (Fin 0) (Fin 600)) w1 <> Throw (Error message).
Proof.
  eexists. split; [vm_compute; reflexivity |].
  split; [vm_compute; reflexivity |]. split; [reflexivity |].
  split; [| intros message]; vm_compute; [reflexivity | discriminate].
Qed.

(** ** C3: the events of [deleteSelection] *)

Section SelectionFacts.
Context {M : Type} (L : Layout) (C : Collaborators M).
Implicit Type w : Workflow M.

Lemma scaleWorkflow_emitted scaleCoefficient ev w w' :
  scaleWorkflow L scaleCoefficient ev w = Ok w' -> emitted w' = emitted w.
Proof.
  unfold scaleWorkflow. intros H. inv_bind H. repeat case_match; by simplify_eq.
Qed.

Lemma redrawEdges_emitted w w' :
  redrawEdges C w = Ok w' -> emitted w' = emitted w.
Proof.
  unfold redrawEdges. intros H. inv_bind H. by simplify_eq.
Qed.

Lemma invokePlugins_emitted (methodName : string) w :
  emitted (invokePlugins methodName w) = emitted w.
Proof.
  unfold invokePlugins. generalize (imap pair (plugins w)). intros l.
  revert w. induction l as [| ip l IH]; intros w; simpl; [done |].
  rewrite IH. by destruct (has_method ip.2 methodName).
Qed.

(** A re-render that has no selection to restore emits nothing. *)
Lemma renderModel_emitted (m : M) w w' :
  match querySelector_class "selected" (children w) with
  | Some el => getAttribute "data-connection-id" el = None
  | None => True
  end ->
  renderModel L C m w = Ok w' -> emitted w' = emitted w.
Proof.
  intros Hsel. unfold renderModel.
  cbn [children set_model].
  replace (match querySelector_class "selected" (children w) with
           | Some el => getAttribute "data-connection-id" el
           | None => None
           end) with (@None string)
    by (destruct (querySelector_class "selected" (children w)); done).
  intros H. inv_bind H. inv_bind H. inv_bind H.
  injection H as <-. rewrite invokePlugins_emitted.
  match goal with
  | H : (if ?b then _ else _) = Ok _ |- _ => destruct b
  end.
  - simplify_eq. simpl. by erewrite redrawEdges_emitted by eassumption.
  - erewrite scaleWorkflow_emitted by eassumption. simpl.
    by erewrite redrawEdges_emitted by eassumption.
Qed.

(** C3.  Without a selected element [deleteSelection] returns the engine
    as it is, having emitted nothing.  With one selected element, an edge,
    it emits "beforeChange", "selectionChange" with [null] and
    "afterChange", in this order and nothing else, when it returns; and it
    returns when the re-render of the model without the connection does.
    An edge has no attribute data-connection-id, by which a re-render
    would look for the selection to restore. *)
Theorem deleteSelection_events w (el : Element) :
  (querySelectorAll_class "selected" (children w) = [] -> deleteSelection L C w = Ok w)
  /\ (querySelectorAll_class "selected" (children w) = [el] ->
      contains "step" el = false -> contains "edge" el = true ->
      getAttribute "data-connection-id" el = None ->
      let deletion := Change "deletion" (Some [uid el]) in
      (forall w', deleteSelection L C w = Ok w' ->
         emitted w' = emitted w ++ [("beforeChange", deletion);
                                    ("selectionChange", Selected None);
                                    ("afterChange", deletion)])
      /\ (forall w1, deleteElement L C el (emit "beforeChange" deletion w) = Ok w1 ->
            exists w', deleteSelection L C w = Ok w')).
Proof.
  split.
  - intros Hsel. unfold deleteSelection. by rewrite Hsel.
  - intros Hsel Hstep Hedge Hid deletion.
    unfold deleteSelection. rewrite Hsel. cbn [length Nat.eqb map deleteElements].
    fold deletion.
    destruct (deleteElement L C el (emit "beforeChange" deletion w)) as [w1 | e] eqn:H1;
      simpl; [| split; intros; discriminate].
    split; [| eauto].
    intros w' [= <-]. simpl.
    unfold deleteElement in H1. rewrite Hstep, Hedge in H1.
    do 2 (match type of H1 with
          | context [findParentNode ?cs ?port] =>
              destruct (findParentNode cs port) as [? | ?]
          end); simpl in H1; try discriminate.
    erewrite (renderModel_emitted _ _ w1); [| | exact H1].
    + simpl. by rewrite <- !app_assoc.
    + simpl. unfold querySelector_class. by rewrite Hsel.
Qed.
End SelectionFacts.

(** Nothing selected in the fresh engine; one selected edge in [edge_selected]. *)
Lemma deleteSelection_events_witness :
  deleteSelection (page (Fin 800) (Fin 600)) no_collaborators fresh = Ok fresh
  /\ exists w', deleteSelection (page (Fin 800) (Fin 600)) wired edge_selected = Ok w'
      /\ emitted w' = [("beforeChange", Change "deletion" (Some [10%nat]));
                       ("selectionChange", Selected None);
                       ("afterChange", Change "deletion" (Some [10%nat]))].
Proof.
  split.
  - by apply (proj1 (deleteSelection_events (page (Fin 800) (Fin 600)) no_collaborators fresh selected_edge)).
  - destruct (proj2 (deleteSelection_events (page (Fin 800) (Fin 600)) wired edge_selected selected_edge))
      as [Hev Hok]; try (vm_compute; reflexivity).
    edestruct Hok as [w' Hw']; [vm_compute; reflexivity |].
    exists w'. split; [exact Hw' |]. by apply Hev.
Defined.

(** ** C4: the plugins *)

(** C4 fails on the code: a plugin that has only [afterRender] cannot be
    attached, because [hookPlugins] calls [registerWorkflowModel] without
    testing for it. *)
Lemma constructor_throws_without_registerWorkflowModel :
  constructor (page (Fin 800) (Fin 600)) no_collaborators tt
    (Some [mkPlugin false false false true])
  = Throw (TypeError "plugin.registerWorkflowModel is not a function").
Proof. reflexivity. Qed.

(** What does hold of the plugins: the methods called by [invokePlugins]
    are those of the plugins that have the method, in the order of the
    array; and plugins that have the three registration methods are each
    registered once, in that order. *)
Section PluginFacts.
Context {M : Type}.
Implicit Type w : Workflow M.

Lemma invoked_foldl (methodName : string) (l : list (nat * SVGPlugin)) w :
  invoked (foldl (fun w ip => if has_method ip.2 methodName
                              then invoke ip.1 methodName w else w) w l)
  = invoked w ++ map (fun ip => (ip.1, methodName))
                     (List.filter (fun ip => has_method ip.2 methodName) l).
Proof.
  revert w. induction l as [| ip l IH]; intros w; simpl.
  - by rewrite app_nil_r.
  - rewrite IH. destruct (has_method ip.2 methodName); simpl; [| done].
    by rewrite <- app_assoc.
Qed.

Lemma invokePlugins_invoked (methodName : string) w :
  invoked (invokePlugins methodName w)
  = invoked w ++ map (fun ip => (ip.1, methodName))
                     (List.filter (fun ip => has_method ip.2 methodName)
                                  (imap pair (plugins w))).
Proof. apply invoked_foldl. Qed.

Lemma hookPlugins_from_invoked (ps : list SVGPlugin) : forall (i : nat) w,
  forallb registers_all ps = true ->
  exists w', hookPlugins_from i ps w = Ok w'
    /\ invoked w' = invoked w
         ++ flat_map (fun j => [(j, "registerWorkflowModel");
                                (j, "registerOnBeforeChange");
                                (j, "registerOnAfterChange")])
                     (seq i (length ps)).
Proof.
  induction ps as [| p ps IH]; intros i w Hall; simpl.
  - exists w. by rewrite app_nil_r.
  - simpl in Hall. apply andb_prop in Hall as [Hp Hps].
    unfold registers_all in Hp.
    apply andb_prop in Hp as [Hp H3]. apply andb_prop in Hp as [H1 H2].
    unfold hookPlugin. rewrite H1, H2, H3. simpl.
    destruct (IH (S i) (invoke i "registerOnAfterChange"
                          (invoke i "registerOnBeforeChange"
                             (invoke i "registerWorkflowModel" w))) Hps)
      as (w' & Hw' & Hinv).
    exists w'. split; [exact Hw' |].
    rewrite Hinv. simpl. by rewrite <- !app_assoc.
Qed.

Lemma hookPlugin_incomplete (i : nat) (p : SVGPlugin) w :
  registers_all p = false -> exists what, hookPlugin i p w = Throw (TypeError what).
Proof.
  unfold registers_all, hookPlugin. intros H.
  destruct (registerWorkflowModel p); simpl; [| eauto].
  destruct (registerOnBeforeChange p); simpl; [| eauto].
  destruct (registerOnAfterChange p); simpl; [discriminate | eauto].
Qed.
End PluginFacts.

(** ** C5: the control points of a connection *)

(** C5 (as amended).  With "right" the control points are
    [x1 + |x1 - x2| / 2] and [x2 - |x1 - x2| / 2], with "left" they are
    [x1 - |x1 - x2| / 2] and [x2 + |x1 - x2| / 2], each at the height of its
    anchor.  A direction that is left out is "right", the default of the
    parameter; both control points lie at [(x1 + x2) / 2] when the direction
    is given and falsy, that is [null] or the empty string. *)
Theorem makeConnectionPath_control_points (x1 y1 x2 y2 : number) :
  makeConnectionPath x1 y1 x2 y2 (Str "right") =
    Some (mkPath (mkPoint x1 y1)
                 (mkPoint (x1 + Math_abs (x1 - x2) / Fin 2) y1)
                 (mkPoint (x2 - Math_abs (x1 - x2) / Fin 2) y2)
                 (mkPoint x2 y2))
  /\ makeConnectionPath x1 y1 x2 y2 (Str "left") =
       Some (mkPath (mkPoint x1 y1)
                    (mkPoint (x1 - Math_abs (x1 - x2) / Fin 2) y1)
                    (mkPoint (x2 + Math_abs (x1 - x2) / Fin 2) y2)
                    (mkPoint x2 y2))
  /\ makeConnectionPath x1 y1 x2 y2 Omitted = makeConnectionPath x1 y1 x2 y2 (Str "right")
  /\ makeConnectionPath x1 y1 x2 y2 Null =
       Some (mkPath (mkPoint x1 y1)
                    (mkPoint ((x1 + x2) / Fin 2) y1) (mkPoint ((x1 + x2) / Fin 2) y2)
                    (mkPoint x2 y2))
  /\ makeConnectionPath x1 y1 x2 y2 (Str "") = makeConnectionPath x1 y1 x2 y2 Null.
Proof. repeat split. Qed.

(** C5 as stated fails: from (10, 0) to (0, 0) with the direction left out,
    the control points are at 15 and -5, not at the midpoint 5. *)
Lemma makeConnectionPath_omitted_is_not_midpoint :
  exists p, makeConnectionPath (Fin 10) (Fin 0) (Fin 0) (Fin 0) Omitted = Some p
    /\ px (control1 p) ≈ Fin 15 /\ px (control2 p) ≈ Fin (-5)
    /\ ((Fin 10 + Fin 0) / Fin 2)%js ≈ Fin 5
    /\ ~ px (control1 p) ≈ ((Fin 10 + Fin 0) / Fin 2)%js
    /\ ~ px (control2 p) ≈ ((Fin 10 + Fin 0) / Fin 2)%js.
Proof.
  eexists. split; [reflexivity |]. by vm_compute.
Qed.

(** ** C6: the loop that halves [dragBoundary] *)

Lemma pow2_ge_1 (n : nat) : 1 <= pow2 n.
Proof.
  induction n as [| n IH]; cbn [pow2]; lra.
Qed.

Lemma pow2_gt (n : nat) : inject_Z (Z.of_nat n) < pow2 n.
Proof.
  induction n as [| n IH].
  - reflexivity.
  - rewrite Nat2Z.inj_succ. unfold Z.succ. rewrite inject_Z_plus.
    cbn [pow2]. change (inject_Z 1) with 1. 
    pose proof (pow2_ge_1 n). lra.
Qed.

Lemma pow2_unbounded (x : Q) : exists n, x < pow2 n.
Proof.
  exists (Z.to_nat (Qceiling x)).
  eapply Qle_lt_trans; [| apply pow2_gt].
  eapply Qle_trans; [apply Qle_ceiling |].
  rewrite <- Zle_Qle. lia.
Qed.

Section Loop.
Variables l t wd h : Q.
Let r := QRect l t wd h.

Lemma boundaries_collide_Fin (d : Q) :
  boundaries_collide r (Fin d) = true <-> wd <= 2 * d \/ wd <= 4 * d.
Proof.
  unfold boundaries_collide, right, r, QRect. cbn [left width].
  autorewrite with js. rewrite orb_true_iff, !jle_Fin.
  split; intros [H | H]; (left; lra) || (right; lra).
Qed.

Lemma boundaries_collide_Fin_false (d : Q) :
  boundaries_collide r (Fin d) = false <-> 2 * d < wd /\ 4 * d < wd.
Proof.
  rewrite <- not_true_iff_false, boundaries_collide_Fin. split.
  - intros H. split; apply Qnot_le_lt; tauto.
  - intros [H1 H2] [H | H]; lra.
Qed.

Lemma half_Fin (d : Q) : (Fin d / Fin 2)%js = Fin (d * (1 # 2)).
Proof.
  rewrite jdiv_Fin by discriminate. reflexivity.
Qed.

Hypothesis wide : 0 < wd.

Lemma resizeDragBoundary_ends (n : nat) : forall d : Q,
  4 * d < wd * pow2 n ->
  exists d', (forall fuel, (S n <= fuel)%nat ->
                resizeDragBoundary fuel r (Fin d) = Some (Fin d'))
             /\ 2 * d' < wd /\ 4 * d' < wd.
Proof.
  induction n as [| n IH]; intros d Hd; cbn [pow2] in Hd.
  - exists d. assert (Hc : boundaries_collide r (Fin d) = false)
      by (apply boundaries_collide_Fin_false; lra).
    split; [| lra].
    intros [| fuel] Hf; [lia |]. cbn [resizeDragBoundary]. by rewrite Hc.
  - destruct (boundaries_collide r (Fin d)) eqn:Hc.
    + destruct (IH (d * (1 # 2))) as (d' & Hd' & Hint); [lra |].
      exists d'. split; [| done].
      intros [| fuel] Hf; [lia |]. cbn [resizeDragBoundary].
      rewrite Hc, half_Fin. apply Hd'. lia.
    + exists d. split; [| by apply boundaries_collide_Fin_false].
      intros [| fuel] Hf; [lia |]. cbn [resizeDragBoundary]. by rewrite Hc.
Qed.

Lemma resizeDragBoundary_terminates (d : Q) :
  exists (n : nat) (d' : Q),
    (forall fuel, (n <= fuel)%nat -> resizeDragBoundary fuel r (Fin d) = Some (Fin d'))
    /\ 2 * d' < wd /\ 4 * d' < wd.
Proof.
  destruct (pow2_unbounded (4 * d / wd)) as [n Hn].
  destruct (resizeDragBoundary_ends n d) as (d' & Hd' & Hint).
  - apply (Qmult_lt_compat_r _ _ wd) in Hn; [| done].
    assert (E : 4 * d / wd * wd == 4 * d) by (field; lra).
    rewrite E in Hn. lra.
  - exists (S n), d'. done.
Qed.
End Loop.

(** C6 (as amended).  For a rectangle of positive width the loop ends,
    whatever the value of [dragBoundary] it starts from, and so does
    [setDragBoundaryIntervalIfNecessary]; it leaves a [dragBoundary] of which
    four fit in the width, so that the left and right zones leave between
    them an interior of positive width.  The loop looks at the left and
    right sides only. *)
Theorem dragBoundary_resize_terminates {M : Type} (w : Workflow M) (l t wd h d : Q)
    (el : Element) (boundary : Z * Z) (pathInfo : option PathInfo) (ghostIO : option GhostIO) :
  workflowBoundingClientRect w = Some (QRect l t wd h) ->
  dragBoundary w = Fin d ->
  0 < wd ->
  exists (n : nat) (d' : Q),
    (forall fuel, (n <= fuel)%nat ->
       resizeDragBoundary fuel (QRect l t wd h) (Fin d) = Some (Fin d')
       /\ exists w', setDragBoundaryIntervalIfNecessary fuel el boundary pathInfo ghostIO w
                      = Some (Ok w')
                    /\ dragBoundary w' = Fin d')
    /\ (left (QRect l t wd h) + Fin d' <? right (QRect l t wd h) - Fin d')%js = true
    /\ (Fin d' * Fin 4 <? width (QRect l t wd h))%js = true.
Proof.
  intros Hr Hd Hwd.
  destruct (resizeDragBoundary_terminates l t wd h Hwd d) as (n & d' & Hn & H2 & H4).
  exists n, d'. split; [| split].
  - intros fuel Hf. split; [by apply Hn |].
    unfold setDragBoundaryIntervalIfNecessary. rewrite Hr, Hd, (Hn fuel Hf). simpl.
    repeat case_match; eauto.
  - unfold right, QRect. cbn [left width]. autorewrite with js. apply jlt_Fin. lra.
  - unfold QRect. cbn [width]. autorewrite with js. apply jlt_Fin. lra.
Qed.

Lemma zero_width_never_ends : forall (fuel : nat) (d : Q),
  0 <= d -> resizeDragBoundary fuel (QRect 0 0 0 600) (Fin d) = None.
Proof.
  induction fuel as [| fuel IH]; intros d Hd; [done |].
  cbn [resizeDragBoundary].
  rewrite (proj2 (boundaries_collide_Fin 0 0 0 600 d)) by (left; lra).
  rewrite half_Fin. apply IH. lra.
Qed.

(** C6 as stated fails: on a rectangle of width 0 the condition of the
    loop holds for ever; and on a rectangle of 1000 by 60 the loop ends at
    once with the top and bottom zones, 50 high each, overlapping. *)
Lemma dragBoundary_resize_fails :
  (forall fuel, resizeDragBoundary fuel (QRect 0 0 0 600) (Fin 50) = None)
  /\ (resizeDragBoundary 1 (QRect 0 0 1000 60) (Fin 50) = Some (Fin 50)
      /\ (top (QRect 0 0 1000 60) + Fin 50 <? bottom (QRect 0 0 1000 60) - Fin 50)%js = false).
Proof.
  split; [| by vm_compute].
  intros fuel. apply zero_width_never_ends. lra.
Qed.

Lemma dragBoundary_resize_terminates_witness :
  exists (n : nat) (d' : Q),
    (forall fuel, (n <= fuel)%nat ->
       resizeDragBoundary fuel (QRect 0 0 800 600) (Fin 50) = Some (Fin d')
       /\ exists w', setDragBoundaryIntervalIfNecessary fuel (mkElement 1 ∅ ∅ identity)
                        (1%Z, 0%Z) None None dragging = Some (Ok w')
                    /\ dragBoundary w' = Fin d')
    /\ (left (QRect 0 0 800 600) + Fin d' <? right (QRect 0 0 800 600) - Fin d')%js = true
    /\ (Fin d' * Fin 4 <? width (QRect 0 0 800 600))%js = true.
Proof.
  apply (dragBoundary_resize_terminates dragging 0 0 800 600 50);
    reflexivity.
Defined.

(** ** C7: the inverse transform and the pivot of a scaling *)

Lemma multiply_QMatrix a b c d e f a' b' c' d' e' f' :
  multiply (QMatrix a b c d e f) (QMatrix a' b' c' d' e' f') =
  QMatrix (a * a' + c * b') (b * a' + d * b') (a * c' + c * d') (b * c' + d * d')
          (a * e' + c * f' + e) (b * e' + d * f' + f).
Proof. reflexivity. Qed.

Lemma roundtrip (a b c d e f x y : Q) mi :
  ~ a * d + - (b * c) == 0 ->
  inverse (QMatrix a b c d e f) = Ok mi ->
  px (matrixTransform (matrixTransform (mkPoint (Fin x) (Fin y)) (QMatrix a b c d e f)) mi) ≈ Fin x
  /\ py (matrixTransform (matrixTransform (mkPoint (Fin x) (Fin y)) (QMatrix a b c d e f)) mi) ≈ Fin y.
Proof.
  intros Hdet Hi. rewrite inverse_QMatrix in Hi by done. injection Hi as <-.
  unfold matrixTransform, QMatrix. cbn [ma mb mc md me mf px py].
  autorewrite with js. unfold same. split; field; done.
Qed.

Lemma det_multiply (a b c d a' b' c' d' : Q) :
  ~ a * d + - (b * c) == 0 -> ~ a' * d' + - (b' * c') == 0 ->
  ~ (a * a' + c * b') * (b * c' + d * d') + - ((b * a' + d * b') * (a * c' + c * d')) == 0.
Proof.
  intros H H' E. 
  assert (E' : (a * d + - (b * c)) * (a' * d' + - (b' * c')) ==
    (a * a' + c * b') * (b * c' + d * d') + - ((b * a' + d * b') * (a * c' + c * d'))) by ring.
  rewrite E in E'.
  apply Qmult_integral in E'. tauto.
Qed.


Ltac nonzero_by H :=
  let E := fresh "E" in
  intros E; apply H; (etransitivity; [| exact E]); ring.

Section InverseConsistency.
Context {M : Type} (L : Layout).
Implicit Type w : Workflow M.

Lemma getScreenCTM_QMatrix w (a b c d e f a' b' c' d' e' f' : Q) :
  rootCTM L = QMatrix a b c d e f ->
  transform w = QMatrix a' b' c' d' e' f' ->
  getScreenCTM L w =
    QMatrix (a * a' + c * b') (b * a' + d * b') (a * c' + c * d') (b * c' + d * d')
            (a * e' + c * f' + e) (b * e' + d * f' + f).
Proof. intros HR HM. unfold getScreenCTM. by rewrite HR, HM. Qed.

Lemma pan_scale_invertible (a b c d s : Q) :
  ~ a * d + - (b * c) == 0 -> ~ s == 0 ->
  ~ (a * s + c * 0) * (b * 0 + d * s) + - ((b * s + d * 0) * (a * 0 + c * s)) == 0.
Proof.
  intros Hr Hs. apply det_multiply; [done |].
  intros E. apply Hs.
  assert (E' : s * s == 0) by (rewrite <- E; ring).
  apply Qmult_integral in E'. tauto.
Qed.

Lemma toCanvas_QMatrix w (A B C D E F X Y : Q) :
  getScreenCTM L w = QMatrix A B C D E F ->
  ~ A * D + - (B * C) == 0 ->
  transformScreenCTMtoCanvas L w (Fin X) (Fin Y) =
    Ok (mkPoint
          (Fin (D / (A * D + - (B * C)) * X + - C / (A * D + - (B * C)) * Y
                + (C * F + - (D * E)) / (A * D + - (B * C))))
          (Fin (- B / (A * D + - (B * C)) * X + A / (A * D + - (B * C)) * Y
                + (B * E + - (A * F)) / (A * D + - (B * C))))).
Proof.
  intros Hctm Hdet. unfold transformScreenCTMtoCanvas.
  rewrite Hctm, inverse_QMatrix by done. reflexivity.
Qed.

Lemma labelScale_Fin (k : Q) :
  ~ k == 0 ->
  (Fin 1 + (Fin 1 - Fin k) / (Fin k * Fin 2))%js = Fin (1 + (1 + - k) / (k * 2)).
Proof.
  intros Hk.
  assert (Hk2 : ~ k * 2 == 0).
  { intros E. apply Qmult_integral in E as [E | E]; [done | discriminate]. }
  by rewrite jsub_Fin, jmul_Fin, (jdiv_Fin _ _ Hk2), jadd_Fin.
Qed.

Lemma scaleWorkflow_at w (k : Q) (x y : number) (coords : SVGPoint) :
  ~ k == 0 ->
  transformScreenCTMtoCanvas L w x y = Ok coords ->
  exists w',
    scaleWorkflow L (Some (Fin k)) (Some (mkClient x y)) w = Ok w'
    /\ scale w' = Fin k
    /\ transform w' =
         mkMatrix (Fin k) (mb (transform w)) (mc (transform w)) (Fin k)
           (me (transform w) + ma (transform w) * px coords - Fin k * px coords)
           (mf (transform w) + ma (transform w) * py coords - Fin k * py coords).
Proof.
  intros Hk Hc. unfold scaleWorkflow.
  change (transformScreenCTMtoCanvas L (set_scale _ w)) with (transformScreenCTMtoCanvas L w).
  cbn [clientX clientY]. rewrite Hc.
  cbn [mbind result_bind from_option id isFinite negb scale set_transform set_scale].
  rewrite (labelScale_Fin k Hk). cbn [isFinite negb]. rewrite andb_false_r.
  eexists. split; [reflexivity |]. done.
Qed.

(** C7.  In a state of pan [(tx, ty)] and scale [s], below a root whose
    screen transform is invertible, [transformScreenCTMtoCanvas] sends the
    place where a canvas point is drawn back to that point; and after
    [scaleWorkflow(k, pivot)] the pivot is the screen position of the same
    canvas point as before.  Numbers are exact here, so the two sides are
    the same number, with no tolerance. *)
Theorem scaling_inverse_consistent (w : Workflow M) (a b c d e f s tx ty : Q) :
  rootCTM L = QMatrix a b c d e f ->
  ~ a * d + - (b * c) == 0 ->
  transform w = QMatrix s 0 0 s tx ty ->
  ~ s == 0 ->
  (forall x y : Q, exists p,
      transformScreenCTMtoCanvas L w
        (px (forward L w (mkPoint (Fin x) (Fin y))))
        (py (forward L w (mkPoint (Fin x) (Fin y)))) = Ok p
      /\ px p ≈ Fin x /\ py p ≈ Fin y)
  /\ (forall k X Y : Q, ~ k == 0 ->
        exists w' p p',
          scaleWorkflow L (Some (Fin k)) (Some (mkClient (Fin X) (Fin Y))) w = Ok w'
          /\ transformScreenCTMtoCanvas L w (Fin X) (Fin Y) = Ok p
          /\ transformScreenCTMtoCanvas L w' (Fin X) (Fin Y) = Ok p'
          /\ px p' ≈ px p /\ py p' ≈ py p).
Proof.
  intros HR Hr HM Hs.
  pose proof (pan_scale_invertible a b c d s Hr Hs) as Hdet.
  pose proof (getScreenCTM_QMatrix w _ _ _ _ _ _ _ _ _ _ _ _ HR HM) as Hctm.
  split.
  - intros x y. unfold forward. rewrite Hctm.
    unfold matrixTransform, QMatrix. cbn [ma mb mc md me mf px py].
    autorewrite with js.
    rewrite (toCanvas_QMatrix w _ _ _ _ _ _ _ _ Hctm Hdet).
    eexists. split; [reflexivity |].
    cbn [px py]. unfold same. split; field; nonzero_by Hdet.
  - intros k X Y Hk.
    pose proof (toCanvas_QMatrix w _ _ _ _ _ _ X Y Hctm Hdet) as Hp.
    destruct (scaleWorkflow_at w k _ _ _ Hk Hp) as (w' & Hw' & _ & Ht).
    rewrite HM in Ht. unfold QMatrix in Ht. cbn [ma mb mc md me mf px py] in Ht.
    autorewrite with js in Ht.
    pose proof (pan_scale_invertible a b c d k Hr Hk) as Hdet'.
    pose proof (getScreenCTM_QMatrix w' _ _ _ _ _ _ _ _ _ _ _ _ HR Ht) as Hctm'.
    exists w'. eexists _, _. split; [exact Hw' |]. split; [exact Hp |].
    split; [exact (toCanvas_QMatrix w' _ _ _ _ _ _ X Y Hctm' Hdet') |].
    cbn [px py]. unfold same. 
    split; field; (split; [nonzero_by Hdet | nonzero_by Hdet']).
Qed.
End InverseConsistency.

(** The scenario of C7: the fresh engine, at scale 1, scaled to 0.5 around
    the pivot (100, 100). *)
Lemma scaling_inverse_consistent_witness :
  (forall x y : Q, exists p,
      transformScreenCTMtoCanvas (page (Fin 800) (Fin 600)) fresh
        (px (forward (page (Fin 800) (Fin 600)) fresh (mkPoint (Fin x) (Fin y))))
        (py (forward (page (Fin 800) (Fin 600)) fresh (mkPoint (Fin x) (Fin y)))) = Ok p
      /\ px p ≈ Fin x /\ py p ≈ Fin y)
  /\ exists w' p p',
       scaleWorkflow (page (Fin 800) (Fin 600)) (Some (Fin 0.5))
         (Some (mkClient (Fin 100) (Fin 100))) fresh = Ok w'
       /\ transformScreenCTMtoCanvas (page (Fin 800) (Fin 600)) fresh (Fin 100) (Fin 100) = Ok p
       /\ transformScreenCTMtoCanvas (page (Fin 800) (Fin 600)) w' (Fin 100) (Fin 100) = Ok p'
       /\ px p' ≈ px p /\ py p' ≈ py p.
Proof.
  destruct (scaling_inverse_consistent (page (Fin 800) (Fin 600)) fresh 1 0 0 1 0 0 1 0 0)
    as [Hinv Hpivot]; try reflexivity; try (by vm_compute).
  split; [exact Hinv |].
  apply (Hpivot 0.5 100 100). by vm_compute.
Defined.

(** ** C8: leaving the boundary zones, and the end of the drag *)

Arguments clearInterval : simpl never.

Section BoundaryFacts.
Context {M : Type} (C : Collaborators M).
Implicit Type w : Workflow M.

Lemma clearInterval_consistent w (h : positive) :
  consistent w -> interval (dragBoundaryInterval w) = Some h ->
  clearInterval (Some h) (timers w) = [].
Proof.
  intros [_ Ht] Hh. unfold clearInterval.
  induction (timers w) as [| t ts IH]; [done |]. simpl.
  assert (Some h = Some (handle t)) as [= ->]
    by (rewrite <- Hh; apply Ht; left).
  rewrite Pos.eqb_refl. simpl. apply IH. intros t' Ht'. apply Ht. by right.
Qed.

Lemma timers_nil_consistent w :
  consistent w -> interval (dragBoundaryInterval w) = None -> timers w = [].
Proof.
  intros [_ Ht] Hh. destruct (timers w) as [| t ts]; [done |].
  specialize (Ht t (list_elem_of_here _ _)). congruence.
Qed.

(** C8.  While the interval runs, a cursor that is in none of the four
    zones makes [getBoundaryZonesXYAxes] clear the interval and reset the
    two flags and the highlighted port, and leaves [xOffset] and [yOffset]
    as they were; [setDragBoundaryIntervalToDefault], which ends the drag,
    puts every field back to its default, the two offsets included. *)
Theorem reentry_keeps_offsets w (x y : number) (r : DOMRect) (h : positive) :
  workflowBoundingClientRect w = Some r ->
  interval (dragBoundaryInterval w) = Some h ->
  in_interior w r x y ->
  (exists w', getBoundaryZonesXYAxes x y w = Ok (w', (0%Z, 0%Z))
     /\ interval (dragBoundaryInterval w') = None
     /\ (forall t, t ∈ timers w' -> handle t <> h)
     /\ on_x (dragBoundaryInterval w') = false
     /\ on_y (dragBoundaryInterval w') = false
     /\ highlightedPort (dragBoundaryInterval w') = None
     /\ xOffset (dragBoundaryInterval w') = xOffset (dragBoundaryInterval w)
     /\ yOffset (dragBoundaryInterval w') = yOffset (dragBoundaryInterval w))
  /\ (forall w0 : Workflow M, consistent w0 ->
        dragBoundaryInterval (setDragBoundaryIntervalToDefault w0) = defaultInterval
        /\ timers (setDragBoundaryIntervalToDefault w0) = []).
Proof.
  intros Hr Hh (Hl & Hri & Ht & Hb). split.
  - unfold getBoundaryZonesXYAxes. rewrite Hr, Hl, Hri, Ht, Hb, Hh. simpl.
    eexists. split; [reflexivity |]. simpl. repeat split.
    intros t Hin Heq. unfold clearInterval in Hin.
    apply list_elem_of_In, filter_In in Hin as [_ Hne].
    rewrite Heq, Pos.eqb_refl in Hne. discriminate.
  - intros w0 Hc. unfold setDragBoundaryIntervalToDefault.
    destruct (interval (dragBoundaryInterval w0)) as [h0 |] eqn:Hh0; simpl.
    + by rewrite (clearInterval_consistent w0 h0 Hc Hh0).
    + destruct Hc as [Hnone Htimers].
      destruct (Hnone Hh0) as (Hx & Hy & Hp).
      split; [| by apply timers_nil_consistent].
      destruct (dragBoundaryInterval w0); simpl in *. by subst.
Qed.

Lemma removeHighlightedPort_frame port dir w w' :
  removeHighlightedPort port dir w = Ok w' ->
  dragBoundaryInterval w' = dragBoundaryInterval w /\ timers w' = timers w.
Proof.
  unfold removeHighlightedPort. destruct port as [port |]; [| by intros [= <-]].
  destruct (findParentNode _ _) as [[node |] | e]; simpl; intros H; by simplify_eq.
Qed.

Lemma setHighlightedPort_frame sortedMap dir w w' port :
  setHighlightedPort sortedMap dir w = Ok (w', port) ->
  dragBoundaryInterval w' = dragBoundaryInterval w /\ timers w' = timers w.
Proof.
  unfold setHighlightedPort.
  destruct (head _) as [first |]; [| by intros [= <- <-]].
  destruct (_ <? _)%js; [| by intros [= <- <-]].
  destruct (findParentNode _ _) as [[node |] | e]; simpl; intros H; by simplify_eq.
Qed.

Lemma replace_ticker_handles (t : Ticker) (ts : list Ticker) :
  map handle (replace_ticker t ts) = map handle ts.
Proof.
  unfold replace_ticker. rewrite map_map. apply map_ext. intros t'.
  destruct (Pos.eqb_spec (handle t') (handle t)); by simpl.
Qed.

Lemma tick_frame (t : Ticker) w w' :
  tick C t w = Ok w' ->
  interval (dragBoundaryInterval w') = interval (dragBoundaryInterval w)
  /\ map handle (timers w') = map handle (timers w).
Proof.
  unfold tick.
  destruct (workflowMatrix t) as [wm |];
    (destruct (pathInfo t) as [info |]; [| destruct (ghostIO t) as [g |]]).
  1, 3, 4, 6: intros [= <-]; simpl; by rewrite replace_ticker_handles.
  all: destruct (getSortedConnectionPorts _ _ _ _) as [sorted | e]; simpl; [| discriminate].
  all: match goal with
       | |- context [removeHighlightedPort ?p ?d ?w0] =>
           destruct (removeHighlightedPort p d w0) as [w1 | e] eqn:H1
       end; simpl; [| discriminate].
  all: apply removeHighlightedPort_frame in H1 as [Hd1 Ht1]; simpl in Hd1, Ht1.
  all: destruct (setHighlightedPort _ _ w1) as [[w2 port] | e] eqn:H2; simpl; [| discriminate].
  all: apply setHighlightedPort_frame in H2 as [Hd2 Ht2].
  all: intros [= <-]; simpl; rewrite replace_ticker_handles; simpl.
  all: by rewrite Hd2, Hd1, Ht2, Ht1.
Qed.

Lemma boundary_step_consistent w w' :
  consistent w -> boundary_step C w w' -> consistent w'.
Proof.
  intros Hc Hstep. destruct Hstep as [fuel el b pi g w w' H | t w w' Hin H | x y z w w' H | w].
  - unfold setDragBoundaryIntervalIfNecessary in H.
    destruct (workflowBoundingClientRect w) as [r |]; [| discriminate].
    destruct (resizeDragBoundary fuel r (dragBoundary w)) as [d |]; simpl in H; [| discriminate].
    repeat case_match; simplify_eq; simpl; try exact Hc.
    all: split; [discriminate |]; simpl.
    all: intros t' Ht'; apply elem_of_app in Ht' as [Ht' | Ht'];
      [| by apply list_elem_of_singleton in Ht' as ->].
    all: exfalso; destruct (interval (dragBoundaryInterval w)) as [h |] eqn:Hh;
      [ rewrite (clearInterval_consistent w h Hc Hh) in Ht'; by apply elem_of_nil in Ht'
      | unfold clearInterval in Ht'; rewrite (timers_nil_consistent w Hc Hh) in Ht';
        by apply elem_of_nil in Ht' ].
  - apply tick_frame in H as [Hi Ht]. destruct Hc as [_ Hts].
    pose proof (Hts t Hin) as Hsome.
    split; [rewrite Hi, Hsome; discriminate |].
    intros t' Ht'. rewrite Hi.
    assert (Hh : handle t' ∈ map handle (timers w'))
      by (apply list_elem_of_fmap; eauto).
    rewrite Ht in Hh. apply list_elem_of_fmap in Hh as (t0 & -> & Ht0). by apply Hts.
  - unfold getBoundaryZonesXYAxes in H.
    destruct (workflowBoundingClientRect w) as [r |]; [| discriminate].
    injection H as <- _.
    repeat case_match; try exact Hc.
    split; [done |]. simpl.
    match goal with Hh : interval _ = Some _ |- _ =>
      rewrite (clearInterval_consistent w _ Hc Hh) end.
    intros t' Ht'. by apply elem_of_nil in Ht'.
  - unfold setDragBoundaryIntervalToDefault.
    destruct (interval (dragBoundaryInterval w)) as [h |] eqn:Hh; simpl.
    + rewrite (clearInterval_consistent w h Hc Hh).
      split; [done |]. intros t' Ht'. by apply elem_of_nil in Ht'.
    + rewrite Hh. destruct Hc as [Hnone Hts]. split; [by intros _; apply Hnone |].
      intros t' Ht'. simpl in *. rewrite <- Hh. by apply Hts.
Qed.

Lemma reachable_consistent w : reachable C w -> consistent w.
Proof.
  induction 1 as [w Hd Ht | w w' _ IH Hstep].
  - split; [by rewrite Hd | rewrite Ht; by intros t ?%elem_of_nil].
  - by eapply boundary_step_consistent.
Qed.
End BoundaryFacts.

(** [scrolling] is a state of the machine, hence consistent. *)
Lemma tick_once_reachable (w : Workflow unit) :
  reachable no_collaborators w -> reachable no_collaborators (tick_once w).
Proof.
  intros Hw. unfold tick_once.
  destruct (timers w) as [| t ts] eqn:Ht; [done |].
  destruct (tick no_collaborators t w) as [w' | e] eqn:Hk; [| done].
  eapply reach_step; [exact Hw |].
  eapply step_tick; [| exact Hk]. rewrite Ht. left.
Qed.

Example scrolling_reachable : reachable no_collaborators scrolling.
Proof.
  do 2 apply tick_once_reachable.
  eapply reach_step.
  - apply (reach_idle _ (set_workflowBoundingClientRect (Some (QRect 0 0 800 600)) with_port));
      reflexivity.
  - eapply (step_hit _ 4 (mkElement 1 {["node"]} ∅ identity) (1%Z, 0%Z) None None).
    vm_compute. reflexivity.
Qed.

Example scrolling_consistent : consistent scrolling.
Proof. exact (reachable_consistent no_collaborators scrolling scrolling_reachable). Qed.

(** The engine of [scrolling]: two ticks after the cursor hit the right
    zone, the interval of handle 2 runs and [xOffset] has grown to 10. *)
Lemma reentry_keeps_offsets_witness :
  (exists w', getBoundaryZonesXYAxes (Fin 400) (Fin 300) scrolling = Ok (w', (0%Z, 0%Z))
     /\ interval (dragBoundaryInterval w') = None
     /\ (forall t, t ∈ timers w' -> handle t <> 2%positive)
     /\ on_x (dragBoundaryInterval w') = false
     /\ on_y (dragBoundaryInterval w') = false
     /\ highlightedPort (dragBoundaryInterval w') = None
     /\ xOffset (dragBoundaryInterval w') = xOffset (dragBoundaryInterval scrolling)
     /\ yOffset (dragBoundaryInterval w') = yOffset (dragBoundaryInterval scrolling))
  /\ (forall w0 : Workflow unit, consistent w0 ->
        dragBoundaryInterval (setDragBoundaryIntervalToDefault w0) = defaultInterval
        /\ timers (setDragBoundaryIntervalToDefault w0) = []).
Proof.
  apply (reentry_keeps_offsets scrolling (Fin 400) (Fin 300) (QRect 0 0 800 600) 2%positive);
    by vm_compute.
Defined.

Example scrolling_offsets :
  xOffset (dragBoundaryInterval scrolling) ≈ Fin 10
  /\ yOffset (dragBoundaryInterval scrolling) ≈ Fin 0
  /\ me (transform scrolling) ≈ Fin (-10)
  /\ on_x (dragBoundaryInterval scrolling) = true.
Proof. by vm_compute. Qed.

(** ** C9: the port to snap to *)

Lemma find_map {A : Type} (p : A -> bool) (f : A -> A) (l : list A) :
  (forall x, p (f x) = p x) -> List.find p (map f l) = f <$> List.find p l.
Proof.
  intros Hp. induction l as [| x l IH]; simpl; [done |].
  rewrite Hp. by destruct (p x).
Qed.

Lemma existsb_map {A : Type} (p : A -> bool) (f : A -> A) (l : list A) :
  (forall x, p (f x) = p x) -> existsb p (map f l) = existsb p l.
Proof.
  intros Hp. induction l as [| x l IH]; simpl; [done |]. by rewrite Hp, IH.
Qed.

Section RouterFacts.
Context {M : Type}.
Implicit Type w : Workflow M.

Lemma findParentNode_update (cs : list Child) (u : nat) (g : Element -> Element)
    (node : Element) :
  (forall e, uid (g e) = uid e) ->
  (forall e, contains "node" (g e) = contains "node" e) ->
  findParentNode cs (Some u) = Ok (Some node) ->
  findParentNode (map_elements g cs) (Some u) = Ok (Some (g node)).
Proof.
  intros Huid Hnode. unfold findParentNode, map_elements.
  rewrite (find_map _ (fun c => mkChild (g (self c)) (map g (nested c)))).
  2:{ intros c. cbn [self nested].
      change (g (self c) :: map g (nested c)) with (map g (self c :: nested c)).
      apply existsb_map. intros e. by rewrite Huid. }
  destruct (List.find _ cs) as [c |]; cbn [fmap option_fmap option_map self nested];
    [| done].
  change (g (self c) :: map g (nested c)) with (map g (self c :: nested c)).
  rewrite find_map by (intros e; by rewrite Huid).
  destruct (List.find (fun e => Nat.eqb (uid e) u) (self c :: nested c)) as [e |];
    cbn [fmap option_fmap option_map]; [| done].
  rewrite !Hnode.
  destruct (contains "node" e); [by intros [= ->] |].
  destruct (contains "node" (self c)); [by intros [= ->] | done].
Qed.

Lemma contains_classList_add (c : string) (cs : list string) (el : Element) :
  c ∉ cs -> contains c (classList_add cs el) = contains c el.
Proof.
  intros Hc. unfold contains, classList_add. cbn [classList].
  apply bool_decide_ext. rewrite elem_of_union, elem_of_list_to_set. tauto.
Qed.

Lemma Map_get_head (k : nat) (v : number) (m : ElementMap) :
  Map_get k ((k, v) :: m) = Some v.
Proof. unfold Map_get. simpl. by rewrite Nat.eqb_refl. Qed.

Lemma setHighlightedPort_far (sortedMap : ElementMap) (edgeDirection : string)
    (port : nat) (d : number) (rest : ElementMap) w :
  sortedMap = (port, d) :: rest -> (d <? Fin 100)%js = false ->
  setHighlightedPort sortedMap edgeDirection w = Ok (w, None).
Proof.
  intros -> Hd. unfold setHighlightedPort. cbn [map fst head].
  rewrite Map_get_head. cbn [from_option id]. by rewrite Hd.
Qed.

Lemma setHighlightedPort_near (sortedMap : ElementMap) (edgeDirection : string)
    (port : nat) (d : number) (rest : ElementMap) (node : Element) w :
  sortedMap = (port, d) :: rest -> (d <? Fin 100)%js = true ->
  findParentNode (children w) (Some port) = Ok (Some node) ->
  exists w', setHighlightedPort sortedMap edgeDirection w = Ok (w', Some port).
Proof.
  intros -> Hd Hnode. unfold setHighlightedPort. cbn [map fst head].
  rewrite Map_get_head. cbn [from_option id]. rewrite Hd.
  unfold update_where.
  erewrite findParentNode_update; [| | | exact Hnode].
  - simpl. eauto.
  - intros e. by destruct (uid e =? port)%nat.
  - intros e. destruct (uid e =? port)%nat; [| done].
    apply contains_classList_add. by apply (bool_decide_unpack _).
Qed.
End RouterFacts.

(** C9.  On a ranked mapping whose first entry is the port [port] at the
    distance [d], no entry is nearer than [d]; [setHighlightedPort] returns
    [port] when [d < 100] and [undefined] otherwise, so at a distance of
    exactly 100 there is no snap target.  The port is one of a node of the
    workflow, which the function looks up to highlight it. *)
Theorem setHighlightedPort_threshold {M : Type} (w : Workflow M) (sortedMap : ElementMap)
    (edgeDirection : string) (port : nat) (d : number) (rest : ElementMap)
    (node : Element) :
  sortedMap = (port, d) :: rest ->
  ranked sortedMap ->
  findParentNode (children w) (Some port) = Ok (Some node) ->
  (forall entry, entry ∈ sortedMap -> (d <=? entry.2)%js = true)
  /\ ((d <? Fin 100)%js = true ->
      exists w', setHighlightedPort sortedMap edgeDirection w = Ok (w', Some port))
  /\ ((d <? Fin 100)%js = false ->
      setHighlightedPort sortedMap edgeDirection w = Ok (w, None))
  /\ (forall q : Q, d = Fin q ->
        (q < 100 -> exists w', setHighlightedPort sortedMap edgeDirection w = Ok (w', Some port))
        /\ (100 <= q -> setHighlightedPort sortedMap edgeDirection w = Ok (w, None))).
Proof.
  intros Hm Hranked Hnode.
  assert (Hnear : (d <? Fin 100)%js = true ->
            exists w', setHighlightedPort sortedMap edgeDirection w = Ok (w', Some port))
    by (intros Hd; eapply setHighlightedPort_near; eauto).
  assert (Hfar : (d <? Fin 100)%js = false ->
            setHighlightedPort sortedMap edgeDirection w = Ok (w, None))
    by (intros Hd; eapply setHighlightedPort_far; eauto).
  repeat split; [| done | done | |].
  - intros entry [j Hj]%list_elem_of_lookup_1.
    apply (Hranked 0%nat j (port, d) entry); [lia | by rewrite Hm | done].
  - intros Hq. subst d. apply Hnear. by apply jlt_Fin.
  - intros Hq. subst d. apply Hfar. by apply jlt_Fin_false.
Qed.

(** The ports at the distances 40 and 150: the one at 40 is the target. *)
Lemma setHighlightedPort_threshold_witness :
  (forall entry, entry ∈ [(2%nat, Fin 40); (3%nat, Fin 150)] -> (Fin 40 <=? entry.2)%js = true)
  /\ exists w', setHighlightedPort [(2%nat, Fin 40); (3%nat, Fin 150)] "right" with_port
                = Ok (w', Some 2%nat).
Proof.
  destruct (setHighlightedPort_threshold with_port [(2%nat, Fin 40); (3%nat, Fin 150)] "right"
              2%nat (Fin 40) [(3%nat, Fin 150)] (mkElement 1 {["node"]} ∅ identity))
    as (Hnearest & Hnear & _).
  - reflexivity.
  - intros i j e e' Hij Hi Hj.
    destruct i as [| [| i]], j as [| [| j]]; simplify_eq/=; try done; lia.
  - reflexivity.
  - split; [exact Hnearest | by apply Hnear].
Defined.

(** ** C10: the events of [setModelPosition] *)

Lemma update_union (x y : number) (props : gmap string number) :
  <["sbg:y" := y]> (<["sbg:x" := x]> ∅) ∪ props
  = <["sbg:y" := y]> (<["sbg:x" := x]> props).
Proof.
  by rewrite <- !insert_union_l, (left_id_L ∅ (∪)).
Qed.

(** C10.  With the emission of events on ([emitEvents] true or left out),
    an object that has [customProps] gets the two coordinates between a
    "beforeChange" and an "afterChange"; an object without [customProps]
    gets them as its [customProps] after the "beforeChange" alone. *)
Theorem setModelPosition_events {M : Type} (obj : NodeModel) (x y : number)
    (emitEvents : option bool) (w : Workflow M) :
  default true emitEvents = true ->
  let after := setModelPosition obj x y emitEvents w in
  match customProps obj with
  | Some props =>
      customProps after.1 = Some (<["sbg:y" := y]> (<["sbg:x" := x]> props))
      /\ emitted after.2 = emitted w ++ [("beforeChange", Change "move" None);
                                         ("afterChange", Change "move" None)]
  | None =>
      customProps after.1 = Some (<["sbg:y" := y]> (<["sbg:x" := x]> ∅))
      /\ emitted after.2 = emitted w ++ [("beforeChange", Change "move" None)]
  end.
Proof.
  intros He. unfold setModelPosition. rewrite He.
  destruct (customProps obj) as [props |]; simpl.
  - split; [by rewrite update_union | by rewrite <- app_assoc].
  - done.
Qed.

Lemma setModelPosition_events_witness :
  let after := setModelPosition (mkNode "step" true None) (Fin 10) (Fin 20) None fresh in
  customProps after.1 = Some (<["sbg:y" := Fin 20]> (<["sbg:x" := Fin 10]> ∅))
  /\ emitted after.2 = emitted fresh ++ [("beforeChange", Change "move" None)].
Proof.
  apply (setModelPosition_events (mkNode "step" true None) (Fin 10) (Fin 20) None fresh).
  reflexivity.
Defined.

(** * Further properties *)

(** ** The viewport *)

Lemma jle_false_jlt (a b : number) :
  isNaN a = false -> isNaN b = false -> (a <=? b)%js = false -> (b <? a)%js = true.
Proof.
  destruct a as [x | | |], b as [y | | |]; try done.
  intros _ _. rewrite jle_Fin_false, jlt_Fin. done.
Qed.

(** X1.  Zooming with the wheel keeps the scale strictly between [minScale]
    and [maxScale]: from a scale in that range, a wheel event whose
    [deltaY] makes [scale + deltaY / 500] a number leaves a scale in that
    range; and when the listener has not called [stopPropagation], which
    includes every event during a drag, the engine is what it was. *)
Theorem onMouseWheel_keeps_range {M : Type} (L : Layout) (ev : MouseWheelEvent)
    (w w' : Workflow M) (stopped : bool) :
  onMouseWheel L ev w = Ok (w', stopped) ->
  isNaN (scale w + deltaY ev / Fin 500) = false ->
  in_range (scale w) = true ->
  in_range (scale w') = true
  /\ (stopped = false -> w' = w)
  /\ (isDragging w = true -> w' = w).
Proof.
  unfold onMouseWheel. intros H Hnan Hin.
  destruct (isDragging w); [by injection H as <- <- |].
  destruct ((_ <=? minScale)%js || _) eqn:Hguard; [by injection H as <- <- |].
  destruct (scaleWorkflow _ _ _ _) as [w1 | e] eqn:Hs; simpl in H; [| discriminate].
  injection H as <- <-.
  split; [| split; discriminate].
  apply scaleWorkflow_scale in Hs. simpl in Hs. rewrite Hs.
  apply orb_false_elim in Hguard as [Hmin Hmax].
  unfold in_range. apply andb_true_intro. split.
  - by apply jle_false_jlt.
  - unfold jge in Hmax. by apply jle_false_jlt.
Qed.

Lemma onMouseWheel_keeps_range_witness :
  exists w', onMouseWheel (page (Fin 800) (Fin 600))
               (mkWheel (mkClient (Fin 10) (Fin 10)) (Fin 100)) fresh = Ok (w', true)
    /\ in_range (scale w') = true.
Proof.
  eexists. split; [vm_compute; reflexivity |].
  eapply (onMouseWheel_keeps_range (page (Fin 800) (Fin 600))
            (mkWheel (mkClient (Fin 10) (Fin 10)) (Fin 100)) fresh);
    vm_compute; reflexivity.
Defined.

Lemma scale_labels_twice (l1 l2 : number) (cs : list Child) :
  scale_labels l2 (scale_labels l1 cs) = scale_labels l2 cs.
Proof.
  unfold scale_labels. rewrite map_map. apply map_ext. intros c. cbn [self nested].
  f_equal. rewrite map_map. apply map_ext. intros el.
  unfold is_node_label. cbn [self].
  destruct (contains "node" (self c)); cbn [andb]; [| done].
  destruct (contains "label" el) eqn:Hl; [| by rewrite Hl].
  replace (contains "label" (set_matrix _ el)) with true by (symmetry; exact Hl).
  reflexivity.
Qed.

Section ScalingFacts.
Context {M : Type} (L : Layout).
Implicit Type w : Workflow M.

Lemma scaleWorkflow_children scaleCoefficient ev w w' :
  scaleWorkflow L scaleCoefficient ev w = Ok w' ->
  children w' =
    scale_labels (Fin 1 + (Fin 1 - default (Fin 1) scaleCoefficient)
                          / (default (Fin 1) scaleCoefficient * Fin 2))%js (children w).
Proof.
  unfold scaleWorkflow. intros H. inv_bind H. repeat case_match; by simplify_eq.
Qed.

(** X2.  Scalings around one pivot do not add up: in a state of pan and
    scale, below a root whose screen transform is invertible, scaling by
    [k1] and then by [k2], neither of them 0, around the same pivot leaves
    the scale, the transform and the labels that scaling by [k2] alone
    leaves.  (With the factor 0 the scale of the labels is not finite, and
    the scaling raises a TypeError where there is a label.) *)
Theorem scaleWorkflow_not_compounded w (a b c d e f s tx ty k1 k2 X Y : Q) :
  rootCTM L = QMatrix a b c d e f ->
  ~ a * d + - (b * c) == 0 ->
  transform w = QMatrix s 0 0 s tx ty ->
  ~ s == 0 ->
  ~ k1 == 0 ->
  ~ k2 == 0 ->
  exists w1 w12 w2,
    scaleWorkflow L (Some (Fin k1)) (Some (mkClient (Fin X) (Fin Y))) w = Ok w1
    /\ scaleWorkflow L (Some (Fin k2)) (Some (mkClient (Fin X) (Fin Y))) w1 = Ok w12
    /\ scaleWorkflow L (Some (Fin k2)) (Some (mkClient (Fin X) (Fin Y))) w = Ok w2
    /\ scale w12 = scale w2
    /\ same_matrix (transform w12) (transform w2)
    /\ children w12 = children w2.
Proof.
  intros HR Hr HM Hs Hk Hk2.
  pose proof (pan_scale_invertible a b c d s Hr Hs) as Hdet.
  pose proof (getScreenCTM_QMatrix L w _ _ _ _ _ _ _ _ _ _ _ _ HR HM) as Hctm.
  pose proof (toCanvas_QMatrix L w _ _ _ _ _ _ X Y Hctm Hdet) as Hp.
  destruct (scaleWorkflow_at L w k1 _ _ _ Hk Hp) as (w1 & Hw1 & _ & Ht1).
  destruct (scaleWorkflow_at L w k2 _ _ _ Hk2 Hp) as (w2 & Hw2 & Hs2 & Ht2).
  rewrite HM in Ht1, Ht2. unfold QMatrix in Ht1, Ht2.
  cbn [ma mb mc md me mf px py] in Ht1, Ht2. autorewrite with js in Ht1, Ht2.
  pose proof (pan_scale_invertible a b c d k1 Hr Hk) as Hdet1.
  pose proof (getScreenCTM_QMatrix L w1 _ _ _ _ _ _ _ _ _ _ _ _ HR Ht1) as Hctm1.
  pose proof (toCanvas_QMatrix L w1 _ _ _ _ _ _ X Y Hctm1 Hdet1) as Hp1.
  destruct (scaleWorkflow_at L w1 k2 _ _ _ Hk2 Hp1) as (w12 & Hw12 & Hs12 & Ht12).
  rewrite Ht1 in Ht12. cbn [ma mb mc md me mf px py] in Ht12. autorewrite with js in Ht12.
  exists w1, w12, w2. split; [exact Hw1 |]. split; [exact Hw12 |]. split; [exact Hw2 |].
  split; [by rewrite Hs12, Hs2 |]. split.
  - rewrite Ht12, Ht2. unfold same_matrix, same. cbn [ma mb mc md me mf].
    repeat split; try reflexivity; field; (split; [nonzero_by Hdet | nonzero_by Hdet1]).
  - rewrite (scaleWorkflow_children _ _ _ _ Hw12), (scaleWorkflow_children _ _ _ _ Hw1),
      (scaleWorkflow_children _ _ _ _ Hw2).
    apply scale_labels_twice.
Qed.

(** X3.  Below a root whose screen transform is invertible,
    [resetTransform] returns from any state, whatever its pan and zoom, with
    the scale 1 and the identity as transform. *)
Theorem resetTransform_identity w (a b c d e f : Q) :
  rootCTM L = QMatrix a b c d e f ->
  ~ a * d + - (b * c) == 0 ->
  exists w', resetTransform L w = Ok w'
    /\ scale w' = Fin 1
    /\ same_matrix (transform w') identity.
Proof.
  intros HR Hr. unfold resetTransform.
  assert (HM : transform (set_transform_attribute identity w) = QMatrix 1 0 0 1 0 0)
    by reflexivity.
  assert (H1 : ~ 1 == 0) by discriminate.
  pose proof (pan_scale_invertible a b c d 1 Hr H1) as Hdet.
  pose proof (getScreenCTM_QMatrix L _ _ _ _ _ _ _ _ _ _ _ _ _ HR HM) as Hctm.
  pose proof (toCanvas_QMatrix L _ _ _ _ _ _ _ 0 0 Hctm Hdet) as Hp.
  destruct (scaleWorkflow_at L _ 1 _ _ _ H1 Hp) as (w' & Hw' & Hs' & Ht').
  exists w'. split; [exact Hw' |]. split; [exact Hs' |].
  rewrite Ht'. unfold same_matrix, same, identity.
  cbn [transform set_transform set_transform_attribute ma mb mc md me mf px py QMatrix].
  autorewrite with js.
  repeat split; try reflexivity; field; nonzero_by Hdet.
Qed.
End ScalingFacts.

Lemma scaleWorkflow_not_compounded_witness :
  exists w1 w12 w2,
    scaleWorkflow (page (Fin 800) (Fin 600)) (Some (Fin 0.5))
      (Some (mkClient (Fin 100) (Fin 100))) fresh = Ok w1
    /\ scaleWorkflow (page (Fin 800) (Fin 600)) (Some (Fin 1.5))
         (Some (mkClient (Fin 100) (Fin 100))) w1 = Ok w12
    /\ scaleWorkflow (page (Fin 800) (Fin 600)) (Some (Fin 1.5))
         (Some (mkClient (Fin 100) (Fin 100))) fresh = Ok w2
    /\ scale w12 = scale w2
    /\ same_matrix (transform w12) (transform w2)
    /\ children w12 = children w2.
Proof.
  apply (scaleWorkflow_not_compounded (page (Fin 800) (Fin 600)) fresh
           1 0 0 1 0 0 1 0 0 0.5 1.5 100 100); try reflexivity; by vm_compute.
Defined.

(** The factor 0 cannot be given to a label, nor a factor that is not a
    number to the matrix: the setters raise. *)
Example scaleWorkflow_TypeError :
  (exists what, scaleWorkflow (page (Fin 800) (Fin 600)) (Some (Fin 0)) None labelled
                = Throw (TypeError what))
  /\ (exists what, scaleWorkflow (page (Fin 800) (Fin 600)) (Some NaN) None fresh
                   = Throw (TypeError what)).
Proof. split; eexists; vm_compute; reflexivity. Qed.

Lemma resetTransform_identity_witness :
  exists w', resetTransform (page (Fin 800) (Fin 600)) scrolling = Ok w'
    /\ scale w' = Fin 1
    /\ same_matrix (transform w') identity.
Proof.
  apply (resetTransform_identity (page (Fin 800) (Fin 600)) scrolling 1 0 0 1 0 0);
    [reflexivity | by vm_compute].
Defined.

(** ** Rendering *)

(** The indices, from [k] on, of the elements of [l] that satisfy [P]. *)
Lemma called_from_elem (P : SVGPlugin -> bool) (l : list SVGPlugin) : forall (k i : nat),
  i ∈ called_from P k l <-> exists p, (k <= i)%nat /\ l !! (i - k)%nat = Some p /\ P p = true.
Proof.
  unfold called_from.
  induction l as [| x l IH]; intros k i.
  - cbn. split; [by intros ?%elem_of_nil | by intros (p & _ & ? & _)].
  - rewrite imap_cons. cbn [List.filter snd].
    rewrite (imap_ext _ (fun j => pair (S k + j)%nat) l)
      by (intros j y _; cbn; f_equal; lia).
    assert (Hstep : i ∈ map fst (List.filter (fun ip : nat * SVGPlugin => P ip.2)
                                   (imap (fun j => pair (S k + j)%nat) l))
                    <-> exists p, (S k <= i)%nat /\ (x :: l) !! (i - k)%nat = Some p
                                  /\ P p = true).
    { rewrite IH. split; intros (p & Hle & Hp & HP); exists p; (split; [done |]).
      - replace (i - k)%nat with (S (i - S k)) by lia. done.
      - replace (i - k)%nat with (S (i - S k)) in Hp by lia. done. }
    replace (k + 0)%nat with k by lia.
    destruct (P x) eqn:HPx; cbn [map fst].
    + rewrite elem_of_cons, Hstep. split.
      * intros [-> | (p & Hle & Hp & HP)].
        -- exists x. rewrite Nat.sub_diag. done.
        -- exists p. split; [lia | done].
      * intros (p & Hle & Hp & HP).
        destruct (decide (i = k)) as [-> | Hne]; [by left | right].
        exists p. split; [lia | done].
    + rewrite Hstep. split.
      * intros (p & Hle & Hp & HP). exists p. split; [lia | done].
      * intros (p & Hle & Hp & HP).
        destruct (decide (i = k)) as [-> | Hne].
        -- rewrite Nat.sub_diag in Hp. cbn in Hp. congruence.
        -- exists p. split; [lia | done].
Qed.

Lemma called_from_sorted (P : SVGPlugin -> bool) (l : list SVGPlugin) (k : nat) :
  StronglySorted lt (called_from P k l).
Proof.
  revert k. induction l as [| x l IH]; intros k; [constructor |].
  pose proof (called_from_elem P l (S k)) as Hel.
  unfold called_from in *. rewrite imap_cons. cbn [List.filter snd].
  rewrite (imap_ext _ (fun j => pair (S k + j)%nat) l)
    by (intros j y _; cbn; f_equal; lia).
  destruct (P x); [| apply IH].
  cbn [map fst]. constructor; [apply IH |].
  apply Forall_forall. intros i Hi.
  apply Hel in Hi as (p & Hle & _). lia.
Qed.

Section RenderingFacts.
Context {M : Type} (L : Layout) (C : Collaborators M).
Implicit Type w : Workflow M.

(** Calls of plugins change nothing in the engine. *)
Lemma invokePlugins_frame (methodName : string) w :
  scale (invokePlugins methodName w) = scale w
  /\ transform (invokePlugins methodName w) = transform w
  /\ children (invokePlugins methodName w) = children w
  /\ plugins (invokePlugins methodName w) = plugins w.
Proof.
  unfold invokePlugins. generalize (imap pair (plugins w)). intros l.
  revert w. induction l as [| ip l IH]; intros w; cbn [foldl]; [done |].
  destruct (IH (if has_method ip.2 methodName then invoke ip.1 methodName w else w))
    as (-> & -> & -> & ->).
  by destruct (has_method ip.2 methodName).
Qed.

Lemma activateSelection_frame (el : Element) w :
  scale (activateSelection el w) = scale w
  /\ transform (activateSelection el w) = transform w
  /\ plugins (activateSelection el w) = plugins w
  /\ invoked (activateSelection el w) = invoked w.
Proof.
  unfold activateSelection, deselectEverything.
  destruct (querySelector_class "selected" _); done.
Qed.

Lemma redrawEdges_frame w w' :
  redrawEdges C w = Ok w' ->
  scale w' = scale w /\ transform w' = transform w
  /\ plugins w' = plugins w /\ invoked w' = invoked w.
Proof.
  unfold redrawEdges. intros H. inv_bind H. by simplify_eq.
Qed.

Lemma scaleWorkflow_frame scaleCoefficient ev w w' :
  scaleWorkflow L scaleCoefficient ev w = Ok w' ->
  plugins w' = plugins w /\ invoked w' = invoked w /\ model w' = model w
  /\ workflowClass w' = workflowClass w.
Proof.
  unfold scaleWorkflow. intros H. inv_bind H. repeat case_match; by simplify_eq.
Qed.

(** What a re-render does to the viewport and to the plugins: it ends with
    the scale it started from and the transform that the attribute gives
    back, or with those that [scaleWorkflow(this.scale)] makes of them. *)
Lemma renderModel_view (m : M) w w' :
  renderModel L C m w = Ok w' ->
  plugins w' = plugins w
  /\ invoked w' = invoked w ++ map (fun ip => (ip.1, "afterRender"))
                     (List.filter (fun ip => has_method ip.2 "afterRender")
                                  (imap pair (plugins w)))
  /\ ((scale w' = scale w /\ transform w' = restored L (transform w))
      \/ exists w0 w1, scale w0 = scale w /\ transform w0 = restored L (transform w)
           /\ scaleWorkflow L (Some (scale w0)) None w0 = Ok w1
           /\ scale w' = scale w1 /\ transform w' = transform w1).
Proof.
  unfold renderModel. intros H.
  apply bind_Ok in H as (tpl & _ & H).
  apply bind_Ok in H as (w1 & H1 & H).
  apply bind_Ok in H as (w2 & H2 & H).
  injection H as <-.
  apply redrawEdges_frame in H1 as (Hs1 & Ht1 & Hp1 & Hi1).
  cbn [scale transform plugins invoked set_children set_transform set_model clearCanvas
       set_workflowClass set_transform_attribute set_timers] in Hs1, Hp1, Hi1.
  clear Ht1.
  match goal with
  | |- context [invokePlugins "afterRender" ?x] => set (w3 := x)
  end.
  destruct (invokePlugins_frame "afterRender" w3) as (Hsc & Htr & _ & Hpl).
  rewrite invokePlugins_invoked, Hsc, Htr, Hpl.
  assert (Hframe : scale w3 = scale w2 /\ transform w3 = transform w2
                   /\ plugins w3 = plugins w2 /\ invoked w3 = invoked w2).
  { subst w3. repeat case_match; try done; apply activateSelection_frame. }
  destruct Hframe as (-> & -> & -> & ->). clear w3 Hsc Htr Hpl.
  destruct tpl.2.
  - injection H2 as <-.
    cbn [scale transform plugins invoked set_children set_transform
         set_transform_attribute set_timers].
    rewrite Hs1, Hp1, Hi1. split; [done |]. split; [done |]. by left.
  - destruct (scaleWorkflow_frame _ _ _ _ H2) as (Hp2 & Hi2 & _).
    cbn [scale transform plugins invoked set_children set_transform
         set_transform_attribute set_timers] in Hp2, Hi2.
    rewrite Hp2, Hi2, Hp1, Hi1. split; [done |]. split; [done |].
    right. eexists _, w2. split; [| split; [| split; [exact H2 |]]]; [| | done].
    + cbn [scale set_children set_transform set_transform_attribute set_timers]. exact Hs1.
    + reflexivity.
Qed.

(** X4.  A re-render changes the viewport by nothing but the passage of
    the transform through its attribute, which [renderModel] reads as a
    string and sets again: when the transform that the attribute gives back
    is a pan with the scale of the engine, below a root whose screen
    transform is invertible, [redraw] ends with the scale that it started
    from and with the transform that the attribute gave back, with or
    without a new model.  That is the transform that it started from where
    the string of the browser loses nothing of it. *)
Theorem redraw_keeps_viewport (m : option M) w w' (a b c d e f k tx ty : Q) :
  rootCTM L = QMatrix a b c d e f ->
  ~ a * d + - (b * c) == 0 ->
  restored L (transform w) = QMatrix k 0 0 k tx ty ->
  scale w = Fin k ->
  ~ k == 0 ->
  redraw L C m w = Ok w' ->
  scale w' = scale w
  /\ same_matrix (transform w') (restored L (transform w))
  /\ (restored L (transform w) = transform w -> same_matrix (transform w') (transform w)).
Proof.
  intros HR Hr HM Hsc Hk H. unfold redraw in H.
  apply renderModel_view in H as (_ & _ & H).
  assert (Hs0 : scale (match m with Some m0 => set_model m0 w | None => w end) = scale w)
    by (by destruct m).
  assert (Ht0 : transform (match m with Some m0 => set_model m0 w | None => w end) = transform w)
    by (by destruct m).
  rewrite Hs0, Ht0 in H.
  assert (Hgoal : scale w' = scale w
                  /\ same_matrix (transform w') (restored L (transform w))).
  { destruct H as [[-> ->] | (w0 & w1 & Hs & Ht & Hw1 & -> & ->)].
    - split; [done |]. unfold same_matrix, same. rewrite HM. cbn. repeat split; reflexivity.
    - rewrite HM in Ht. rewrite Hsc in Hs. rewrite Hs in Hw1.
      pose proof (pan_scale_invertible a b c d k Hr Hk) as Hdet.
      pose proof (getScreenCTM_QMatrix L w0 _ _ _ _ _ _ _ _ _ _ _ _ HR Ht) as Hctm.
      pose proof (toCanvas_QMatrix L w0 _ _ _ _ _ _ 0 0 Hctm Hdet) as Hp.
      destruct (scaleWorkflow_at L w0 k _ _ _ Hk Hp) as (w1' & Hw1' & Hs' & Ht').
      unfold scaleWorkflow in Hw1, Hw1'. cbn [clientX clientY] in Hw1'.
      rewrite Hw1 in Hw1'. injection Hw1' as <-.
      rewrite Hs', Hsc. split; [done |].
      rewrite Ht', Ht, HM. unfold same_matrix, same, QMatrix.
      cbn [ma mb mc md me mf px py]. autorewrite with js.
      repeat split; try reflexivity; field; nonzero_by Hdet. }
  destruct Hgoal as [Hscale Hsame]. split; [exact Hscale |]. split; [exact Hsame |].
  intros E. by rewrite E in Hsame.
Qed.

(** X5.  A re-render calls [afterRender] once on each plugin that has the
    method, in the order of the array, and calls no other method: a plugin
    without [afterRender] is passed over, where [hookPlugins] would raise. *)
Theorem renderModel_afterRender (m : M) w w' :
  renderModel L C m w = Ok w' ->
  exists called : list nat,
    invoked w' = invoked w ++ map (fun i => (i, "afterRender")) called
    /\ StronglySorted lt called
    /\ (forall i, i ∈ called <->
          exists p, plugins w !! i = Some p /\ afterRender p = true).
Proof.
  intros H. apply renderModel_view in H as (_ & -> & _).
  exists (called_from (fun p => has_method p "afterRender") 0 (plugins w)).
  split; [| split].
  - f_equal. unfold called_from. rewrite map_map. reflexivity.
  - apply called_from_sorted.
  - intros i. rewrite called_from_elem. split.
    + intros (p & _ & Hp & Hm). rewrite Nat.sub_0_r in Hp. eauto.
    + intros (p & Hp & Hm). exists p. rewrite Nat.sub_0_r. split; [lia | done].
Qed.
End RenderingFacts.

Lemma renderModel_afterRender_witness :
  exists w',
    renderModel (page (Fin 800) (Fin 600)) no_collaborators tt with_plugins = Ok w'
    /\ exists called : list nat,
         invoked w' = invoked with_plugins ++ map (fun i => (i, "afterRender")) called
         /\ StronglySorted lt called
         /\ (forall i, i ∈ called <->
               exists p, plugins with_plugins !! i = Some p /\ afterRender p = true).
Proof.
  eexists. split; [vm_compute; reflexivity |].
  apply (renderModel_afterRender (page (Fin 800) (Fin 600)) no_collaborators tt with_plugins).
  vm_compute; reflexivity.
Defined.

Lemma redraw_keeps_viewport_witness :
  exists w', redraw (page (Fin 800) (Fin 600)) no_collaborators None zoomed = Ok w'
    /\ scale w' = scale zoomed
    /\ same_matrix (transform w') (restored (page (Fin 800) (Fin 600)) (transform zoomed))
    /\ (restored (page (Fin 800) (Fin 600)) (transform zoomed) = transform zoomed ->
        same_matrix (transform w') (transform zoomed)).
Proof.
  eexists. split; [vm_compute; reflexivity |].
  apply (redraw_keeps_viewport (page (Fin 800) (Fin 600)) no_collaborators None zoomed _
           1 0 0 1 0 0 0.5 50 50); try reflexivity; try (by vm_compute).
Defined.

(** ** Selection *)

Lemma descendants_map_elements (f : Element -> Element) (cs : list Child) :
  descendants (map_elements f cs) = map f (descendants cs).
Proof.
  unfold descendants, map_elements.
  induction cs as [| c cs IH]; [done |].
  cbn [map concat self nested]. rewrite IH, map_app. reflexivity.
Qed.

Lemma filter_map_comm {A : Type} (P Q : A -> bool) (g : A -> A) (l : list A) :
  (forall x, P (g x) = Q x) -> List.filter P (map g l) = map g (List.filter Q l).
Proof.
  intros H. induction l as [| x l IH]; [done |].
  cbn [map List.filter]. rewrite H, IH. by destruct (Q x).
Qed.

Lemma filter_none {A : Type} (P : A -> bool) (l : list A) :
  (forall x, P x = false) -> List.filter P l = [].
Proof.
  intros H. induction l as [| x l IH]; [done |]. cbn [List.filter]. by rewrite H.
Qed.

Lemma contains_classList_remove_in (c : string) (cs : list string) (el : Element) :
  c ∈ cs -> contains c (classList_remove cs el) = false.
Proof.
  intros Hc. unfold contains, classList_remove. cbn [classList].
  apply bool_decide_eq_false. rewrite elem_of_difference, elem_of_list_to_set. tauto.
Qed.

Lemma contains_classList_remove_notin (c : string) (cs : list string) (el : Element) :
  c ∉ cs -> contains c (classList_remove cs el) = contains c el.
Proof.
  intros Hc. unfold contains, classList_remove. cbn [classList].
  apply bool_decide_ext. rewrite elem_of_difference, elem_of_list_to_set. tauto.
Qed.

Lemma filter_andb_split {A : Type} (P Q : A -> bool) (l : list A) :
  List.filter P (List.filter Q l) = List.filter (fun x => P x && Q x) l.
Proof.
  induction l as [| x l IH]; [done |]. cbn [List.filter].
  destruct (Q x); cbn [List.filter]; rewrite IH; [| by rewrite andb_false_r].
  by rewrite andb_true_r.
Qed.

Section DeselectFacts.
Context {M : Type}.
Implicit Type w : Workflow M.

Lemma deselectEverything_children w :
  children (deselectEverything w) =
    let cs := update_where (contains "highlighted") (classList_remove ["highlighted"])
                           (children w) in
    match querySelector_class "selected" cs with
    | Some selected =>
        update_where (fun el => Nat.eqb (uid el) (uid selected))
                     (classList_remove ["selected"]) cs
    | None => cs
    end.
Proof.
  unfold deselectEverything. cbn [children set_children set_workflowClass emit].
  by destruct (querySelector_class "selected" _).
Qed.

Lemma deselectEverything_frame w :
  workflowClass (deselectEverything w) = workflowClass w ∖ {["has-selection"]}
  /\ emitted (deselectEverything w) = emitted w ++ [("selectionChange", Selected None)]
  /\ scale (deselectEverything w) = scale w
  /\ transform (deselectEverything w) = transform w.
Proof.
  unfold deselectEverything. cbn [children set_children set_workflowClass emit].
  by destruct (querySelector_class "selected" _).
Qed.

(** X6.  [deselectEverything] leaves no element highlighted, takes
    "has-selection" from the workflow and emits one "selectionChange" with
    [null].  Of the selected elements it deselects the first in document
    order, and that one only: the others stay selected. *)
Theorem deselectEverything_first_only w :
  querySelectorAll_class "highlighted" (children (deselectEverything w)) = []
  /\ ("has-selection" ∉ workflowClass (deselectEverything w))
  /\ emitted (deselectEverything w) = emitted w ++ [("selectionChange", Selected None)]
  /\ map uid (querySelectorAll_class "selected" (children (deselectEverything w))) =
       match map uid (querySelectorAll_class "selected" (children w)) with
       | [] => []
       | u :: us => List.filter (fun v => negb (Nat.eqb v u)) us
       end.
Proof.
  destruct (deselectEverything_frame w) as (-> & -> & _).
  rewrite deselectEverything_children. cbn zeta.
  set (f := fun el => if contains "highlighted" el
                      then classList_remove ["highlighted"] el else el).
  assert (Hfh : forall el, contains "highlighted" (f el) = false).
  { intros el. unfold f. destruct (contains "highlighted" el) eqn:Hh; [| done].
    apply contains_classList_remove_in. left. }
  assert (Hfs : forall el, contains "selected" (f el) = contains "selected" el).
  { intros el. unfold f. destruct (contains "highlighted" el); [| done].
    apply contains_classList_remove_notin. by apply (bool_decide_unpack _). }
  assert (Hfu : forall el, uid (f el) = uid el).
  { intros el. unfold f. by destruct (contains "highlighted" el). }
  change (update_where (contains "highlighted") (classList_remove ["highlighted"]) (children w))
    with (map_elements f (children w)).
  set (cs := map_elements f (children w)).
  assert (Hsel : querySelectorAll_class "selected" cs
                 = map f (querySelectorAll_class "selected" (children w))).
  { unfold querySelectorAll_class, cs. rewrite descendants_map_elements.
    by apply filter_map_comm. }
  assert (Hhi : querySelectorAll_class "highlighted" cs = []).
  { unfold querySelectorAll_class, cs. rewrite descendants_map_elements.
    rewrite (filter_map_comm _ (fun _ => false)) by done.
    by rewrite filter_none. }
  assert (Hclass : "has-selection" ∉ workflowClass w ∖ {["has-selection"]}).
  { apply not_elem_of_difference. right. by apply elem_of_singleton. }
  unfold querySelector_class. rewrite Hsel.
  destruct (querySelectorAll_class "selected" (children w)) as [| first rest] eqn:Hall;
    cbn [map head].
  - by rewrite Hhi, Hsel.
  - set (g := fun el => if Nat.eqb (uid el) (uid (f first))
                        then classList_remove ["selected"] el else el).
    change (update_where _ (classList_remove ["selected"]) cs) with (map_elements g cs).
    assert (Hgh : forall el, contains "highlighted" (g el) = contains "highlighted" el).
    { intros el. unfold g. destruct (Nat.eqb _ _); [| done].
      apply contains_classList_remove_notin. by apply (bool_decide_unpack _). }
    assert (Hgu : forall el, uid (g el) = uid el).
    { intros el. unfold g. by destruct (Nat.eqb _ _). }
    split; [| split; [done | split; [done |]]].
    + unfold querySelectorAll_class. rewrite descendants_map_elements.
      rewrite (filter_map_comm _ (contains "highlighted")) by done.
      unfold querySelectorAll_class in Hhi. by rewrite Hhi.
    + unfold querySelectorAll_class. rewrite descendants_map_elements.
      rewrite (filter_map_comm _ (fun el => negb (Nat.eqb (uid el) (uid (f first)))
                                            && contains "selected" el)).
      2:{ intros el. unfold g. destruct (Nat.eqb (uid el) (uid (f first))); [| done].
          apply contains_classList_remove_in. left. }
      rewrite map_map. rewrite (map_ext (fun x => uid (g x)) uid) by done.
      rewrite <- filter_andb_split.
      unfold querySelectorAll_class in Hsel. rewrite Hsel. cbn [map List.filter].
      rewrite Nat.eqb_refl. cbn [negb].
      rewrite Hfu. clear -Hfu. induction rest as [| e rest IH]; [done |].
      cbn [map List.filter]. rewrite Hfu.
      destruct (Nat.eqb (uid e) (uid first)); cbn [negb map];
        [exact IH | rewrite Hfu; f_equal; exact IH].
Qed.
End DeselectFacts.

(** ** Plugins *)

Section HookFacts.
Context {M : Type}.
Implicit Type w : Workflow M.

Lemma hookPlugin_plugins (i : nat) (p : SVGPlugin) w w' :
  hookPlugin i p w = Ok w' -> plugins w' = plugins w.
Proof.
  unfold hookPlugin. repeat case_match; intros ?; by simplify_eq.
Qed.

Lemma hookPlugins_from_plugins (ps : list SVGPlugin) : forall (i : nat) w w',
  hookPlugins_from i ps w = Ok w' -> plugins w' = plugins w.
Proof.
  induction ps as [| p ps IH]; intros i w w' H; cbn [hookPlugins_from] in H.
  - by injection H as <-.
  - apply bind_Ok in H as (w1 & H1 & H).
    rewrite (IH _ _ _ H). by eapply hookPlugin_plugins.
Qed.

Lemma hookPlugins_from_incomplete (ps : list SVGPlugin) : forall (i : nat) w,
  forallb registers_all ps = false ->
  exists what, hookPlugins_from i ps w = Throw (TypeError what).
Proof.
  induction ps as [| p ps IH]; intros i w Hall; [discriminate |].
  cbn [forallb hookPlugins_from] in *.
  destruct (registers_all p) eqn:Hp.
  - destruct (hookPlugins_from_invoked [p] i w) as (w1 & H1 & _);
      [cbn [forallb]; by rewrite Hp |].
    cbn [hookPlugins_from] in H1.
    destruct (hookPlugin i p w) as [w1' | e]; cbn in H1 |- *; [| discriminate].
    apply IH. exact Hall.
  - destruct (hookPlugin_incomplete i p w Hp) as [what ->]. cbn. eauto.
Qed.
End HookFacts.

(** X7.  [new Workflow] with plugins returns only when each plugin has the
    three registration methods, and otherwise raises a TypeError.  When it
    returns, it has called the three methods on each plugin, plugin by
    plugin in the order of the array, and then [afterRender] on the plugins
    that have it. *)
Theorem constructor_registers {M : Type} (L : Layout) (C : Collaborators M) (m : M)
    (ps : list SVGPlugin) :
  (forall w, constructor L C m (Some ps) = Ok w ->
     forallb registers_all ps = true
     /\ plugins w = ps
     /\ invoked w =
          flat_map (fun j => [(j, "registerWorkflowModel");
                              (j, "registerOnBeforeChange");
                              (j, "registerOnAfterChange")])
                   (seq 0 (length ps))
          ++ map (fun i => (i, "afterRender")) (called_from afterRender 0 ps))
  /\ (forallb registers_all ps = false ->
      exists what, constructor L C m (Some ps) = Throw (TypeError what)).
Proof.
  unfold constructor, hookPlugins. cbn [from_option id plugins].
  set (w0 := mkWorkflow (Fin 1) identity ∅ [] m ps false (Fin 50) (Fin 5)
                        defaultInterval None [] [] []).
  split.
  - intros w H. apply bind_Ok in H as (w1 & H1 & H).
    destruct (forallb registers_all ps) eqn:Hall.
    + destruct (hookPlugins_from_invoked ps 0 w0 Hall) as (w1' & H1' & Hinv).
      rewrite H1 in H1'. injection H1' as <-.
      apply hookPlugins_from_plugins in H1.
      apply renderModel_view in H as (Hp & Hi & _).
      cbn [plugins invoked set_workflowClass set_transform] in Hp, Hi.
      rewrite Hp, Hi, Hinv, H1. split; [done |]. split; [done |].
      cbn [invoked w0 app]. f_equal. unfold called_from. rewrite map_map. reflexivity.
    + destruct (hookPlugins_from_incomplete ps 0 w0 Hall) as [what Hw].
      rewrite Hw in H1. discriminate.
  - intros Hall. destruct (hookPlugins_from_incomplete ps 0 w0 Hall) as [what ->].
    cbn. eauto.
Qed.

Lemma constructor_registers_witness :
  exists w,
    constructor (page (Fin 800) (Fin 600)) no_collaborators tt
      (Some [mkPlugin true true true false; mkPlugin true true true true]) = Ok w
    /\ invoked w = invoked with_plugins.
Proof.
  eexists. split; [vm_compute; reflexivity |].
  edestruct (proj1 (constructor_registers (page (Fin 800) (Fin 600)) no_collaborators tt
                      [mkPlugin true true true false; mkPlugin true true true true]))
    as (_ & _ & ->); [vm_compute; reflexivity |].
  vm_compute; reflexivity.
Defined.

(** ** The edges *)

Lemma filter_app_list {A : Type} (P : A -> bool) (l l' : list A) :
  List.filter P (l ++ l') = List.filter P l ++ List.filter P l'.
Proof.
  induction l as [| x l IH]; [done |]. cbn [app List.filter].
  rewrite IH. by destruct (P x).
Qed.

Lemma filter_all {A : Type} (P : A -> bool) (l : list A) :
  (forall x, x ∈ l -> P x = true) -> List.filter P l = l.
Proof.
  induction l as [| x l IH]; intros H; [done |]. cbn [List.filter].
  rewrite (H x) by left. f_equal. apply IH. intros y Hy. apply H. by right.
Qed.

Lemma filter_negb_filter {A : Type} (P : A -> bool) (l : list A) :
  List.filter P (List.filter (fun x => negb (P x)) l) = [].
Proof.
  induction l as [| x l IH]; [done |]. cbn [List.filter].
  destruct (P x) eqn:Hx; cbn [negb List.filter]; [done |]. by rewrite Hx.
Qed.

Lemma filter_nothing {A : Type} (P : A -> bool) (l : list A) :
  (forall x, x ∈ l -> P x = false) -> List.filter P l = [].
Proof.
  induction l as [| x l IH]; intros H; [done |]. cbn [List.filter].
  rewrite (H x) by left. apply IH. intros y Hy. apply H. by right.
Qed.

Section EdgeFacts.
Context {M : Type} (C : Collaborators M).
Implicit Type w : Workflow M.

Hypothesis faithful : edge_templates_faithful C.

Lemma highlighted_ids_templates (H : gset string) (l : list Connection) :
  exists H' : gset string,
    highlighted_ids
      (map (fun c => makeEdgeTemplate C c
                       (if bool_decide (source_id c +:+ destination_id c ∈ H)
                        then "highlighted" else "")) l) = Ok H'
    /\ forall x, x ∈ H' <->
         exists c, c ∈ l /\ x = source_id c +:+ destination_id c /\ x ∈ H.
Proof.
  induction l as [| c l (H' & IH & Hel)]; cbn [map highlighted_ids].
  - exists ∅. split; [done |]. intros x. split; [by intros ?%elem_of_empty |].
    by intros (c & ?%elem_of_nil & _).
  - rewrite IH.
    destruct (faithful c "highlighted") as (_ & Hs & Hd & Hh & _).
    destruct (faithful c "") as (_ & _ & _ & _ & Hn).
    destruct (bool_decide (source_id c +:+ destination_id c ∈ H)) eqn:Hc.
    + apply bool_decide_eq_true in Hc.
      rewrite Hh. unfold edgeID_of. rewrite Hs, Hd. cbn.
      eexists. split; [reflexivity |].
      intros x. rewrite elem_of_union, elem_of_singleton, Hel. split.
      * intros [-> | (c' & Hin & Hx & HxH)]; [exists c | exists c'].
        -- split; [left | done].
        -- split; [by right | done].
      * intros (c' & Hin & Hx & HxH). apply elem_of_cons in Hin as [-> | Hin]; [by left |].
        right. eauto.
    + apply bool_decide_eq_false in Hc. rewrite Hn.
      exists H'. split; [done |]. intros x. rewrite Hel. split.
      * intros (c' & Hin & Hx & HxH). exists c'. split; [by right | done].
      * intros (c' & Hin & Hx & HxH). apply elem_of_cons in Hin as [-> | Hin]; [| eauto].
        subst x. done.
Qed.

(** X8.  When the templates of the edges carry their connection,
    [redrawEdges] draws one edge for each connection of the model, visible
    or not, ahead of the other children; and it is idempotent: a second
    call leaves the engine, and the edges that are highlighted, as the first
    one left them. *)
Theorem redrawEdges_idempotent w w1 :
  redrawEdges C w = Ok w1 ->
  length (List.filter (fun c => contains "edge" (self c)) (children w1))
    = length (connections C (model w1))
  /\ redrawEdges C w1 = Ok w1.
Proof.
  unfold redrawEdges at 1. intros Hw. apply bind_Ok in Hw as (H & _ & Hw).
  injection Hw as <-.
  cbn [children model set_children].
  set (rest := List.filter (fun c => negb (contains "edge" (self c))) (children w)).
  destruct (highlighted_ids_templates H (connections C (model w))) as (H' & HH' & Hel).
  set (T := map _ (connections C (model w))) in *.
  assert (Hall : forall x, x ∈ T -> contains "edge" (self x) = true).
  { intros x (c & -> & _)%list_elem_of_fmap. apply (faithful c). }
  assert (Hedges : List.filter (fun c => contains "edge" (self c)) (T ++ rest) = T).
  { rewrite filter_app_list. unfold rest.
    rewrite (filter_negb_filter (fun c => contains "edge" (self c))), app_nil_r.
    by apply filter_all. }
  assert (Hrest : List.filter (fun c => negb (contains "edge" (self c))) (T ++ rest) = rest).
  { rewrite filter_app_list.
    rewrite (filter_nothing _ T) by (intros x Hx; by rewrite Hall).
    unfold rest. cbn [app]. apply filter_all.
    intros x Hx. rewrite list_elem_of_In in Hx. by apply filter_In in Hx as [_ ?]. }
  split; [rewrite Hedges; unfold T; by rewrite length_map |].
  unfold redrawEdges. cbn [children model set_children].
  rewrite Hedges, HH', Hrest. cbn [mbind result_bind]. f_equal.
  unfold set_children. cbn. f_equal. f_equal.
  apply map_ext_in. intros c Hc. f_equal.
  assert (E : bool_decide (source_id c +:+ destination_id c ∈ H')
              = bool_decide (source_id c +:+ destination_id c ∈ H));
    [| by rewrite E].
  apply bool_decide_ext. rewrite Hel. split.
  - by intros (_ & _ & _ & ?).
  - intros HH. exists c. split; [by apply list_elem_of_In | done].
Qed.
End EdgeFacts.

Lemma redrawEdges_idempotent_witness :
  exists w1, redrawEdges wired edge_highlighted = Ok w1
    /\ length (List.filter (fun c => contains "edge" (self c)) (children w1))
         = length (connections wired (model w1))
    /\ redrawEdges wired w1 = Ok w1.
Proof.
  eexists. split; [vm_compute; reflexivity |].
  apply (redrawEdges_idempotent wired) with (w := edge_highlighted);
    [| vm_compute; reflexivity].
  intros c states. repeat split; try reflexivity.
  cbn. apply bool_decide_eq_true. set_solver.
Defined.

(** ** The nodes and their coordinates *)

Lemma parseInt_Fin (q : Q) : isNaN (parseInt (Some (Fin q))) = false.
Proof. reflexivity. Qed.

(** X9.  The coordinates that [setModelPosition] writes are those that a
    re-render reads: a node moved to finite coordinates is drawn at these
    coordinates, not rounded, and asks for no arrangement, whatever its
    [customProps] were and also when it had none. *)
Theorem moved_node_is_drawn_there {M : Type} (C : Collaborators M) (obj : NodeModel)
    (x y : Q) (emitEvents : option bool) (w : Workflow M) :
  node_template C (setModelPosition obj (Fin x) (Fin y) emitEvents w).1
  = Ok (makeNodeTemplate C (setModelPosition obj (Fin x) (Fin y) emitEvents w).1
          (Fin x) (Fin y), false).
Proof.
  unfold setModelPosition, node_template.
  destruct (customProps obj) as [props |]; cbn [fst customProps].
  - rewrite update_union.
    rewrite lookup_insert_ne by done. rewrite !lookup_insert_eq.
    reflexivity.
  - rewrite lookup_insert_ne by done. rewrite !lookup_insert_eq.
    reflexivity.
Qed.

Section CreateStep.
Context {M : Type} (L : Layout) (C : Collaborators M).
Implicit Type w : Workflow M.

(** X10.  The listener of "app.create.step" raises a TypeError on a step
    without [customProps].  When it returns it has emitted "beforeChange"
    and "afterChange" of type "step.create" and nothing else, has kept the
    scale, and has put the template of the step last among the children; the
    template is made at the coordinates of the step, but a coordinate that
    is missing, 0 or NaN is replaced by the random one. *)
Theorem onCreateStep_places (step : NodeModel) (random_x random_y : number) w :
  (customProps step = None ->
   exists what, onCreateStep L C step random_x random_y w = Throw (TypeError what))
  /\ (forall w', onCreateStep L C step random_x random_y w = Ok w' ->
      exists (props : gmap string number) (x y labelScale : number),
        customProps step = Some props
        /\ emitted w' = emitted w ++ [("beforeChange", Change "step.create" None);
                                      ("afterChange", Change "step.create" None)]
        /\ scale w' = scale w
        /\ children w' = scale_labels labelScale (children w ++ [makeNodeTemplate C step x y])
        /\ (forall q, props !! "sbg:x" = Some (Fin q) -> ~ q == 0 -> x = Fin q)
        /\ (props !! "sbg:x" = None \/ props !! "sbg:x" = Some (Fin 0)
            \/ props !! "sbg:x" = Some NaN -> x = random_x)
        /\ (forall q, props !! "sbg:y" = Some (Fin q) -> ~ q == 0 -> y = Fin q)
        /\ (props !! "sbg:y" = None \/ props !! "sbg:y" = Some (Fin 0)
            \/ props !! "sbg:y" = Some NaN -> y = random_y)).
Proof.
  unfold onCreateStep. split.
  - intros ->. eauto.
  - intros w' H. destruct (customProps step) as [props |]; [| discriminate].
    apply bind_Ok in H as (w1 & H1 & H). injection H as <-.
    exists props. eexists _, _, _. split; [done |].
    pose proof (scaleWorkflow_emitted L _ _ _ _ H1) as He.
    pose proof (scaleWorkflow_scale L _ _ _ _ H1) as Hs.
    pose proof (scaleWorkflow_children L _ _ _ _ H1) as Hc.
    cbn [emit emitted scale children set_children from_option id] in *.
    rewrite He, Hs, Hc, <- app_assoc. repeat split.
    + intros q -> Hq. cbn. by destruct (Qeq_alt q 0) as [_ ?]; destruct (q ?= 0) eqn:E;
        [exfalso; apply Hq, Qeq_alt | |].
    + intros [-> | [-> | ->]]; reflexivity.
    + intros q -> Hq. cbn. by destruct (Qeq_alt q 0) as [_ ?]; destruct (q ?= 0) eqn:E;
        [exfalso; apply Hq, Qeq_alt | |].
    + intros [-> | [-> | ->]]; reflexivity.
Qed.
End CreateStep.

Lemma onCreateStep_places_witness :
  (exists what,
     onCreateStep (page (Fin 800) (Fin 600)) no_collaborators (mkNode "step" true None)
       (Fin 7) (Fin 9) fresh = Throw (TypeError what))
  /\ exists w', onCreateStep (page (Fin 800) (Fin 600)) no_collaborators
                  (mkNode "step" true (Some (<["sbg:x" := Fin 0]> (<["sbg:y" := Fin 20]> ∅))))
                  (Fin 7) (Fin 9) fresh = Ok w'
       /\ emitted w' = emitted fresh ++ [("beforeChange", Change "step.create" None);
                                         ("afterChange", Change "step.create" None)].
Proof.
  split.
  - by apply (proj1 (onCreateStep_places (page (Fin 800) (Fin 600)) no_collaborators
                       (mkNode "step" true None) (Fin 7) (Fin 9) fresh)).
  - eexists. split; [vm_compute; reflexivity |].
    edestruct (proj2 (onCreateStep_places (page (Fin 800) (Fin 600)) no_collaborators
                 (mkNode "step" true (Some (<["sbg:x" := Fin 0]> (<["sbg:y" := Fin 20]> ∅))))
                 (Fin 7) (Fin 9) fresh)) as (props & x & y & ls & _ & He & _);
      [vm_compute; reflexivity |].
    exact He.
Defined.

(** ** The connection router *)

Lemma Map_get_set_eq (k : nat) (v : number) (m : ElementMap) :
  Map_get k (Map_set k v m) = Some v.
Proof.
  unfold Map_get. induction m as [| e m IH]; cbn [Map_set List.find fst].
  - by rewrite Nat.eqb_refl.
  - destruct (Nat.eqb e.1 k) eqn:E; cbn [List.find fst].
    + by rewrite Nat.eqb_refl.
    + by rewrite E.
Qed.

Lemma Map_get_set_ne (k k' : nat) (v : number) (m : ElementMap) :
  k <> k' -> Map_get k' (Map_set k v m) = Map_get k' m.
Proof.
  intros Hne. unfold Map_get. induction m as [| e m IH]; cbn [Map_set List.find fst].
  - by rewrite (proj2 (Nat.eqb_neq k k')).
  - destruct (Nat.eqb_spec e.1 k) as [E | E]; cbn [List.find fst].
    + rewrite (proj2 (Nat.eqb_neq k k')) by done.
      by rewrite (proj2 (Nat.eqb_neq e.1 k')) by congruence.
    + destruct (Nat.eqb e.1 k'); [done | exact IH].
Qed.

Lemma Map_set_fresh (k : nat) (v : number) (m : ElementMap) :
  k ∉ map fst m -> Map_set k v m = m ++ [(k, v)].
Proof.
  induction m as [| e m IH]; intros Hk; cbn [Map_set app]; [done |].
  cbn [map] in Hk. apply not_elem_of_cons in Hk as [Hne Hk].
  rewrite (proj2 (Nat.eqb_neq e.1 k)) by congruence. by rewrite IH.
Qed.

Lemma Map_set_all_fresh (g : nat -> number) (l : list nat) : forall acc : ElementMap,
  NoDup l -> (forall k, k ∈ l -> k ∉ map fst acc) ->
  foldl (fun ordered el => Map_set el (g el) ordered) acc l
  = acc ++ map (fun el => (el, g el)) l.
Proof.
  induction l as [| k l IH]; intros acc Hnd Hfresh; cbn [foldl map].
  - by rewrite app_nil_r.
  - apply NoDup_cons in Hnd as [Hk Hnd].
    rewrite Map_set_fresh by (apply Hfresh; left).
    rewrite IH; [by rewrite <- app_assoc | done |].
    intros k' Hk'. rewrite map_app. cbn [map fst].
    rewrite elem_of_app, list_elem_of_singleton.
    intros [Hin | ->]; [| done]. by apply (Hfresh k'); [right |].
Qed.

Lemma StronglySorted_lookup {A : Type} (R : A -> A -> Prop) (l : list A) :
  StronglySorted R l ->
  forall (i j : nat) (a b : A), (i < j)%nat -> l !! i = Some a -> l !! j = Some b -> R a b.
Proof.
  induction 1 as [| x l Hs IH Hall]; intros i j a b Hij Hi Hj; [done |].
  destruct j as [| j]; [lia |]. destruct i as [| i].
  - cbn in Hi, Hj. injection Hi as <-.
    rewrite Forall_forall in Hall. apply Hall. by eapply list_elem_of_lookup_2.
  - cbn in Hi, Hj. apply (IH i j); [lia | done | done].
Qed.

Lemma lookup_map {A B : Type} (f : A -> B) (l : list A) (i : nat) :
  map f l !! i = f <$> l !! i.
Proof. exact (list_lookup_fmap f l i). Qed.

Section SortFacts.
Variable key : nat -> number.
Variable q : nat -> Q.

Let cmp (el1 el2 : nat) : number := (key el1 - key el2)%js.
Let le (a b : nat) : Prop := q a <= q b.

Lemma sort_insert_sorted (x : nat) (l : list nat) :
  (forall el, el ∈ x :: l -> key el = Fin (q el)) ->
  StronglySorted le l ->
  StronglySorted le (sort_insert cmp x l) /\ sort_insert cmp x l ≡ₚ x :: l.
Proof.
  intros Hkey Hs. induction Hs as [| y l Hs IH Hall]; cbn [sort_insert].
  - split; [repeat constructor | reflexivity].
  - assert (Hx : key x = Fin (q x)) by (apply Hkey; left).
    assert (Hy : key y = Fin (q y)) by (apply Hkey; right; left).
    assert (Hc : cmp y x = Fin (q y + - q x)) by (unfold cmp; by rewrite Hx, Hy, jsub_Fin).
    rewrite !Hc.
    destruct (Fin 0 <? Fin (q y + - q x))%js eqn:Hlt.
    + apply jlt_Fin in Hlt. split; [| reflexivity].
      constructor; [constructor; assumption |].
      constructor; [unfold le; lra |].
      eapply Forall_impl; [exact Hall |]. intros z Hz. unfold le in *. lra.
    + apply jlt_Fin_false in Hlt.
      destruct IH as [IHs IHp].
      { intros el Hel. apply Hkey. apply elem_of_cons in Hel as [-> | Hel]; [left |].
        right. by right. }
      split.
      * constructor; [exact IHs |].
        rewrite IHp. constructor; [unfold le; lra | exact Hall].
      * rewrite IHp. apply perm_swap.
Qed.

Lemma Array_sort_sorted (l : list nat) :
  (forall el, el ∈ l -> key el = Fin (q el)) ->
  StronglySorted le (Array_sort cmp l) /\ Array_sort cmp l ≡ₚ l.
Proof.
  intros Hkey. unfold Array_sort.
  assert (Hgen : forall acc : list nat,
            (forall el, el ∈ acc -> key el = Fin (q el)) ->
            StronglySorted le acc ->
            StronglySorted le (foldl (fun acc x => sort_insert cmp x acc) acc l)
            /\ foldl (fun acc x => sort_insert cmp x acc) acc l ≡ₚ acc ++ l).
  { induction l as [| x l IH]; intros acc Hacc Hs; cbn [foldl].
    - by rewrite app_nil_r.
    - destruct (sort_insert_sorted x acc) as [Hs' Hp'].
      + intros el Hel. apply elem_of_cons in Hel as [-> | Hel];
          [apply Hkey; left | by apply Hacc].
      + exact Hs.
      + destruct (IH (fun el Hel => Hkey el (list_elem_of_further _ _ _ Hel))
                     (sort_insert cmp x acc)) as [Hs'' Hp''].
        * intros el Hel. rewrite Hp' in Hel.
          apply elem_of_cons in Hel as [-> | Hel]; [apply Hkey; left | by apply Hacc].
        * exact Hs'.
        * split; [exact Hs'' |]. rewrite Hp'', Hp'.
          by rewrite <- Permutation_middle. }
  destruct (Hgen []) as [Hs Hp]; [by intros el ?%elem_of_nil | constructor |].
  done.
Qed.
End SortFacts.

Section RankingFacts.
Context {M : Type} (C : Collaborators M).

(** X11.  For ports that are distinct, each with its transformation to the
    origin, and at finite distances, [getSortedConnectionPorts] returns the
    ports in an order of nondecreasing distance, and the mapping of each of
    them to its distance in that order: a ranked mapping, as
    [setHighlightedPort] takes it to be. *)
Theorem getSortedConnectionPorts_ranked (connectionPorts : list nat) (coords : SVGPoint)
    (portToOriginTransformation : gmap nat SVGMatrix) :
  NoDup connectionPorts ->
  (forall el, el ∈ connectionPorts ->
     exists ctm, portToOriginTransformation !! el = Some ctm
       /\ is_finite (distance C (px coords) (py coords) (me ctm) (mf ctm))) ->
  exists (sorted : list nat) (m : ElementMap),
    getSortedConnectionPorts C connectionPorts coords portToOriginTransformation
      = Ok (sorted, m)
    /\ sorted ≡ₚ connectionPorts
    /\ map fst m = sorted
    /\ (forall el d, (el, d) ∈ m ->
          exists ctm, portToOriginTransformation !! el = Some ctm
            /\ d = distance C (px coords) (py coords) (me ctm) (mf ctm))
    /\ ranked m.
Proof.
  intros Hnd Hports.
  set (dist := fun el => match portToOriginTransformation !! el with
                         | Some ctm => distance C (px coords) (py coords) (me ctm) (mf ctm)
                         | None => NaN
                         end).
  set (step := fun (acc : result ElementMap) (el : nat) =>
                 distances ← acc;
                 match portToOriginTransformation !! el with
                 | Some ctm =>
                     Ok (Map_set el (distance C (px coords) (py coords) (me ctm) (mf ctm))
                                 distances)
                 | None => Throw (TypeError "Cannot read property 'e' of undefined")
                 end).
  assert (Hfold : forall (l : list nat) (acc : ElementMap),
            (forall el, el ∈ l -> el ∈ connectionPorts) ->
            exists D, foldl step (Ok acc) l = Ok D
              /\ forall el, Map_get el D = if bool_decide (el ∈ l) then Some (dist el)
                                           else Map_get el acc).
  { induction l as [| x l IH]; intros acc Hsub; cbn [foldl].
    - exists acc. split; [done |]. intros el. rewrite bool_decide_eq_false_2; [done |].
      apply not_elem_of_nil.
    - destruct (Hports x) as (ctm & Hctm & _); [apply Hsub; left |].
      unfold step at 2. cbn [mbind result_bind]. rewrite Hctm.
      destruct (IH (Map_set x (distance C (px coords) (py coords) (me ctm) (mf ctm)) acc))
        as (D & HD & Hget); [intros el Hel; apply Hsub; by right |].
      exists D. split; [exact HD |]. intros el. rewrite Hget.
      destruct (decide (el ∈ l)) as [Hin | Hnin].
      + rewrite !bool_decide_eq_true_2; [done | by right | done].
      + rewrite (bool_decide_eq_false_2 (el ∈ l)) by done.
        destruct (decide (el = x)) as [-> | Hne].
        * rewrite bool_decide_eq_true_2 by left.
          rewrite Map_get_set_eq. unfold dist. by rewrite Hctm.
        * rewrite bool_decide_eq_false_2 by (intros [? | ?]%elem_of_cons; done).
          by apply Map_get_set_ne. }
  destruct (Hfold connectionPorts []) as (D & HD & Hget); [done |].
  unfold getSortedConnectionPorts.
  match goal with
  | |- context [foldl ?f ?a connectionPorts] =>
      assert (E : foldl f a connectionPorts = Ok D) by exact HD; rewrite E; clear E
  end.
  cbn [mbind result_bind].
  set (get := fun el => default NaN (Map_get el D)).
  set (qd := fun el => match dist el with Fin x => x | _ => 0 end).
  assert (Hkey : forall el, el ∈ connectionPorts -> get el = Fin (qd el)).
  { intros el Hel. unfold get, qd. rewrite Hget, bool_decide_eq_true_2 by done.
    cbn [from_option id]. destruct (Hports el Hel) as (ctm & Hctm & Hfin).
    unfold dist. rewrite Hctm. by destruct (distance C _ _ _ _). }
  destruct (Array_sort_sorted get qd connectionPorts Hkey) as [Hs Hp].
  set (sorted := Array_sort (fun el1 el2 => (get el1 - get el2)%js) connectionPorts) in *.
  assert (Hnd' : NoDup sorted) by (by rewrite Hp).
  exists sorted, (map (fun el => (el, get el)) sorted). split.
  { cbv zeta. do 2 f_equal.
    apply (Map_set_all_fresh get sorted [] Hnd'). intros k _. apply not_elem_of_nil. }
  split; [exact Hp |]. split; [| split].
  - rewrite map_map. cbn [fst]. apply map_id.
  - intros el d (el' & [= -> ->] & Hel)%list_elem_of_fmap.
    rewrite Hp in Hel. destruct (Hports el' Hel) as (ctm & Hctm & _).
    exists ctm. split; [done |]. unfold get.
    rewrite Hget, bool_decide_eq_true_2 by done. cbn [from_option id].
    unfold dist. by rewrite Hctm.
  - intros i j e e' Hij Hi Hj.
    assert (Hi' : (fun el => (el, get el)) <$> sorted !! i = Some e)
      by (rewrite <- lookup_map; exact Hi).
    assert (Hj' : (fun el => (el, get el)) <$> sorted !! j = Some e')
      by (rewrite <- lookup_map; exact Hj).
    clear Hi Hj. rename Hi' into Hi, Hj' into Hj.
    destruct (sorted !! i) as [a |] eqn:Ha; [| discriminate].
    destruct (sorted !! j) as [b |] eqn:Hb; [| discriminate].
    cbn in Hi, Hj. injection Hi as <-. injection Hj as <-. cbn [snd].
    assert (Hain : a ∈ connectionPorts)
      by (rewrite <- Hp; by eapply list_elem_of_lookup_2).
    assert (Hbin : b ∈ connectionPorts)
      by (rewrite <- Hp; by eapply list_elem_of_lookup_2).
    rewrite (Hkey a Hain), (Hkey b Hbin). apply jle_Fin.
    destruct (decide (i = j)) as [-> | Hne].
    + rewrite Ha in Hb. injection Hb as <-. apply Qle_refl.
    + apply (StronglySorted_lookup _ _ Hs i j); [lia | done | done].
Qed.
End RankingFacts.

Lemma getSortedConnectionPorts_ranked_witness :
  exists (sorted : list nat) (m : ElementMap),
    getSortedConnectionPorts by_e [2%nat; 3%nat; 4%nat] (mkPoint (Fin 0) (Fin 0))
      (<[2%nat := QMatrix 1 0 0 1 150 0]>
         (<[3%nat := QMatrix 1 0 0 1 40 0]> (<[4%nat := QMatrix 1 0 0 1 90 0]> ∅)))
      = Ok (sorted, m)
    /\ sorted ≡ₚ [2%nat; 3%nat; 4%nat]
    /\ map fst m = sorted
    /\ ranked m.
Proof.
  edestruct (getSortedConnectionPorts_ranked by_e [2%nat; 3%nat; 4%nat] (mkPoint (Fin 0) (Fin 0))
               (<[2%nat := QMatrix 1 0 0 1 150 0]>
                  (<[3%nat := QMatrix 1 0 0 1 40 0]> (<[4%nat := QMatrix 1 0 0 1 90 0]> ∅))))
    as (sorted & m & H & Hp & Hm & _ & Hr).
  - by apply (bool_decide_unpack _).
  - intros el Hel. repeat (apply elem_of_cons in Hel as [-> | Hel]);
      [eexists; split; [vm_compute; reflexivity | exact I] .. | by apply elem_of_nil in Hel].
  - exists sorted, m. done.
Defined.

(** ** The path of a connection *)

Ltac split_string s :=
  destruct s as [| [[] [] [] [] [] [] [] []] s]; try done.

(** X12.  [makeConnectionPath] returns a path unless the direction is a
    string other than "", "right" and "left", for which it returns
    [undefined].  Every path that it returns runs from [(x1, y1)] to
    [(x2, y2)], with the first control point at the height [y1] and the
    second at the height [y2]. *)
Theorem makeConnectionPath_undefined (x1 y1 x2 y2 : number) (forceDirection : argument) :
  (makeConnectionPath x1 y1 x2 y2 forceDirection = None <->
     exists s, forceDirection = Str s /\ s <> "" /\ s <> "right" /\ s <> "left")
  /\ (forall p, makeConnectionPath x1 y1 x2 y2 forceDirection = Some p ->
        start p = mkPoint x1 y1 /\ finish p = mkPoint x2 y2
        /\ py (control1 p) = y1 /\ py (control2 p) = y2).
Proof.
  split.
  - split.
    + destruct forceDirection as [| | s]; [done | done |].
      intros H. exists s. split; [done |].
      repeat split; intros ->; discriminate.
    + intros (s & -> & H0 & Hr & Hl).
      do 6 (try split_string s).
  - intros p. destruct forceDirection as [| | s].
    + cbn. intros [= <-]. done.
    + cbn. intros [= <-]. done.
    + repeat (split_string s; try (cbn; intros [= <-]; done)).
Qed.

(** X13.  A connection that runs forward, from [x1] to an [x2] that is
    not smaller, has with "right", and so without a direction, the control
    points that it has with the direction [null]: both at [(x1 + x2) / 2];
    so has a connection that runs backward with "left". *)
Theorem makeConnectionPath_forward_midpoint (x1 x2 : Q) (y1 y2 : number) :
  (x1 <= x2 ->
   exists p, makeConnectionPath (Fin x1) y1 (Fin x2) y2 Omitted = Some p
     /\ px (control1 p) ≈ ((Fin x1 + Fin x2) / Fin 2)%js
     /\ px (control2 p) ≈ ((Fin x1 + Fin x2) / Fin 2)%js)
  /\ (x2 <= x1 ->
      exists p, makeConnectionPath (Fin x1) y1 (Fin x2) y2 (Str "left") = Some p
        /\ px (control1 p) ≈ ((Fin x1 + Fin x2) / Fin 2)%js
        /\ px (control2 p) ≈ ((Fin x1 + Fin x2) / Fin 2)%js).
Proof.
  split; intros Hle; (eexists; split; [reflexivity |]);
    cbn [control1 control2 px]; autorewrite with js;
    unfold Math_abs; rewrite !half_Fin; autorewrite with js; unfold same.
  - rewrite (Qabs_neg (x1 + - x2)) by lra. split; lra.
  - rewrite (Qabs_pos (x1 + - x2)) by lra. split; lra.
Qed.

Lemma makeConnectionPath_forward_midpoint_witness :
  exists p, makeConnectionPath (Fin 0) (Fin 0) (Fin 10) (Fin 5) Omitted = Some p
    /\ px (control1 p) ≈ ((Fin 0 + Fin 10) / Fin 2)%js
    /\ px (control2 p) ≈ ((Fin 0 + Fin 10) / Fin 2)%js.
Proof.
  apply (proj1 (makeConnectionPath_forward_midpoint 0 10 (Fin 0) (Fin 5))). by vm_compute.
Defined.

Lemma makeConnectionPath_undefined_witness :
  makeConnectionPath (Fin 0) (Fin 0) (Fin 10) (Fin 5) (Str "up") = None.
Proof.
  apply (proj1 (makeConnectionPath_undefined (Fin 0) (Fin 0) (Fin 10) (Fin 5) (Str "up"))).
  exists "up". done.
Defined.

(** ** The interval of the drag boundary *)

Section IntervalFacts.
Context {M : Type} (C : Collaborators M).
Implicit Type w : Workflow M.

Lemma one_interval_cleared w :
  one_interval w -> clearInterval (interval (dragBoundaryInterval w)) (timers w) = [].
Proof.
  intros [[-> ->] | (t & -> & ->)]; [done |].
  unfold clearInterval. cbn [List.filter]. by rewrite Pos.eqb_refl.
Qed.

Lemma boundary_step_one_interval w w' :
  one_interval w -> boundary_step C w w' -> one_interval w'.
Proof.
  intros Hone Hstep.
  destruct Hstep as [fuel el b pi g w w' H | t w w' Hin H | x y z w w' H | w].
  - unfold setDragBoundaryIntervalIfNecessary in H.
    destruct (workflowBoundingClientRect w) as [r |]; [| discriminate].
    destruct (resizeDragBoundary fuel r (dragBoundary w)) as [d |]; cbn in H; [| discriminate].
    repeat case_match; simplify_eq; try exact Hone.
    all: right; cbn [timers dragBoundaryInterval set_timers set_dragBoundaryInterval
                     set_dragBoundary interval].
    all: rewrite (one_interval_cleared w Hone); eexists; split; reflexivity.
  - apply tick_frame in H as [Hi Ht].
    destruct Hone as [[_ Hnil] | (t0 & Ht0 & Hh)].
    + rewrite Hnil in Hin. by apply elem_of_nil in Hin.
    + right. rewrite Ht0 in Ht. cbn [map] in Ht.
      destruct (timers w') as [| t1 [| t2 ts]]; try discriminate.
      injection Ht as Ht. exists t1. split; [done |]. by rewrite Hi, Hh, Ht.
  - unfold getBoundaryZonesXYAxes in H.
    destruct (workflowBoundingClientRect w) as [r |]; [| discriminate].
    injection H as <- _.
    repeat case_match; try exact Hone.
    left. cbn [timers dragBoundaryInterval set_timers set_dragBoundaryInterval interval].
    split; [done |].
    match goal with Hh : interval _ = Some _ |- _ => rewrite <- Hh end.
    by apply one_interval_cleared.
  - unfold setDragBoundaryIntervalToDefault.
    destruct (interval (dragBoundaryInterval w)) as [h |] eqn:Hh.
    + left. cbn [timers dragBoundaryInterval set_timers set_dragBoundaryInterval interval].
      split; [done |]. rewrite <- Hh. by apply one_interval_cleared.
    + destruct Hone as [[_ Hnil] | (t0 & _ & Hh')]; [| congruence].
      left. cbn [timers dragBoundaryInterval set_timers set_dragBoundaryInterval interval].
      done.
Qed.

(** X14.  No interval leaks: in every state that the four functions of the
    drag boundary reach from one where none runs, whatever the order and the
    arguments of the calls and of the ticks, at most one interval runs, and
    it is the one of the handle that the engine holds; without a handle, no
    interval runs. *)
Theorem reachable_one_interval w :
  reachable C w -> one_interval w.
Proof.
  induction 1 as [w Hd Ht | w w' _ IH Hstep].
  - left. by rewrite Hd.
  - by eapply boundary_step_one_interval.
Qed.

Lemma resizeDragBoundary_result (fuel : nat) (r : DOMRect) : forall d d' : number,
  resizeDragBoundary fuel r d = Some d' -> boundaries_collide r d' = false.
Proof.
  induction fuel as [| fuel IH]; intros d d' H; [discriminate |].
  cbn [resizeDragBoundary] in H.
  destruct (boundaries_collide r d) eqn:Hc; [by eapply IH |]. by injection H as <-.
Qed.

Lemma set_dragBoundary_same w : set_dragBoundary (dragBoundary w) w = w.
Proof. by destruct w. Qed.

(** X15.  While the cursor stays in the same zones, the calls that the
    moves of the mouse make start nothing new: once
    [setDragBoundaryIntervalIfNecessary] has returned for given zones, a
    call for the same zones returns the engine as it is, whatever the
    element and the paths it is given. *)
Theorem setDragBoundaryIntervalIfNecessary_once (fuel fuel' : nat) (el el' : Element)
    (boundary : Z * Z) (pathInfo pathInfo' : option PathInfo)
    (ghostIO ghostIO' : option GhostIO) w w' :
  setDragBoundaryIntervalIfNecessary fuel el boundary pathInfo ghostIO w = Some (Ok w') ->
  (0 < fuel')%nat ->
  setDragBoundaryIntervalIfNecessary fuel' el' boundary pathInfo' ghostIO' w' = Some (Ok w').
Proof.
  intros H Hfuel. unfold setDragBoundaryIntervalIfNecessary in H.
  destruct (workflowBoundingClientRect w) as [r |] eqn:Hr; [| discriminate].
  destruct (resizeDragBoundary fuel r (dragBoundary w)) as [d |] eqn:Hd; cbn in H;
    [| discriminate].
  apply resizeDragBoundary_result in Hd.
  assert (Hres : resizeDragBoundary fuel' r d = Some d).
  { destruct fuel' as [| n]; [lia |]. cbn [resizeDragBoundary]. by rewrite Hd. }
  unfold setDragBoundaryIntervalIfNecessary.
  destruct (nonzero boundary.1) eqn:H1, (nonzero boundary.2) eqn:H2;
    destruct (on_x (dragBoundaryInterval w)) eqn:Hx,
             (on_y (dragBoundaryInterval w)) eqn:Hy;
    cbn in H; injection H as <-;
    cbn [workflowBoundingClientRect set_dragBoundary set_timers set_dragBoundaryInterval
         dragBoundary dragBoundaryInterval on_x on_y];
    rewrite Hr, Hres; cbn [mbind option_bind]; rewrite ?H1, ?H2, ?Hx, ?Hy; cbn;
    reflexivity.
Qed.
End IntervalFacts.

Lemma reachable_one_interval_witness : one_interval scrolling.
Proof.
  apply (reachable_one_interval no_collaborators scrolling).
  exact scrolling_reachable.
Defined.

Lemma setDragBoundaryIntervalIfNecessary_once_witness :
  setDragBoundaryIntervalIfNecessary 1 (mkElement 1 {["node"]} ∅ identity) (1%Z, 0%Z)
    None None hit_right = Some (Ok hit_right).
Proof.
  apply (setDragBoundaryIntervalIfNecessary_once 4 1 (mkElement 1 {["node"]} ∅ identity)
           (mkElement 1 {["node"]} ∅ identity) (1%Z, 0%Z) None None None None
           (set_workflowBoundingClientRect (Some (QRect 0 0 800 600)) with_port));
    [vm_compute; reflexivity | lia].
Defined.

(** ** The ticks of the interval *)


Section TickFacts.
Context {M : Type} (C : Collaborators M).
Implicit Type w : Workflow M.




End TickFacts.


(** ** Dragging and panning *)

Section DragFacts.
Context {M : Type} (L : Layout).
Implicit Type w : Workflow M.

(** X17.  While the cursor is in the left or the right zone, the dragged
    element is held at the edge of the zone: below a root that is neither
    rotated nor skewed, and with a pan-and-scale transform, the origin of an
    element that started at [startX] and is moved by the [x] that
    [getScaledDeltaXYForDrag] returns is drawn at [right - dragBoundary], or
    at [left + dragBoundary], wherever the pointer is. *)
Theorem getScaledDeltaXYForDrag_holds_at_edge (boundary : Z * Z) (ev : ClientPoint)
    (startY dx dy : number) w (a d e f k tx ty l t wd h db sx : Q) :
  rootCTM L = QMatrix a 0 0 d e f ->
  ~ a == 0 -> ~ d == 0 ->
  transform w = QMatrix k 0 0 k tx ty ->
  ~ k == 0 ->
  workflowBoundingClientRect w = Some (QRect l t wd h) ->
  dragBoundary w = Fin db ->
  boundary.1 <> 0%Z ->
  exists p, getScaledDeltaXYForDrag L boundary ev (Fin sx) startY dx dy w = Ok p
    /\ forall y : Q,
         px (forward L w (mkPoint (Fin sx + px p) (Fin y)))
           ≈ (if Z.eqb boundary.1 1 then right (QRect l t wd h) - Fin db
              else left (QRect l t wd h) + Fin db)%js.
Proof.
  intros HR Ha Hd HM Hk Hrect Hdb Hb.
  assert (Hr : ~ a * d + - (0 * 0) == 0).
  { intros E. assert (E' : a * d == 0) by (rewrite <- E; ring).
    apply Qmult_integral in E'. tauto. }
  pose proof (pan_scale_invertible a 0 0 d k Hr Hk) as Hdet.
  pose proof (getScreenCTM_QMatrix L w _ _ _ _ _ _ _ _ _ _ _ _ HR HM) as Hctm.
  unfold getScaledDeltaXYForDrag, rect_for. rewrite Hrect, Hdb.
  assert (Hnz : nonzero boundary.1 = true)
    by (unfold nonzero; apply negb_true_iff, Z.eqb_neq; exact Hb).
  rewrite Hnz. cbn [orb mbind result_bind].
  set (X := if Z.eqb boundary.1 1 then l + wd + - db else l + db).
  assert (HX : (if Z.eqb boundary.1 1 then Ok (right (QRect l t wd h) - Fin db)%js
                else Ok (left (QRect l t wd h) + Fin db)%js) = Ok (Fin X)).
  { unfold X, right, QRect. cbn [left width].
    destruct (Z.eqb boundary.1 1); by autorewrite with js. }
  assert (HX' : (if Z.eqb boundary.1 1 then right (QRect l t wd h) - Fin db
                 else left (QRect l t wd h) + Fin db)%js = Fin X).
  { unfold X, right, QRect. cbn [left width].
    destruct (Z.eqb boundary.1 1); by autorewrite with js. }
  rewrite HX, HX'. cbn [mbind result_bind].
  rewrite (toCanvas_QMatrix L w _ _ _ _ _ _ X 0 Hctm Hdet). cbn [mbind result_bind px py].
  assert (Hy : exists sdy,
    (if nonzero boundary.2
     then y ← (if Z.eqb boundary.2 1
               then Ok (bottom (QRect l t wd h) - Fin db)%js
               else Ok (top (QRect l t wd h) + Fin db)%js);
          edgeY ← transformScreenCTMtoCanvas L w (Fin 0) y;
          Ok (py edgeY - startY)%js
     else Ok (adaptToScale w dy + yOffset (dragBoundaryInterval w))%js) = Ok sdy).
  { destruct (nonzero boundary.2); [| eauto].
    assert (HY : exists Y, (if Z.eqb boundary.2 1
                            then Ok (bottom (QRect l t wd h) - Fin db)%js
                            else Ok (top (QRect l t wd h) + Fin db)%js) = Ok (Fin Y)).
    { unfold bottom, QRect. cbn [top height].
      destruct (Z.eqb boundary.2 1); autorewrite with js; eauto. }
    destruct HY as [Y ->]. cbn [mbind result_bind].
    rewrite (toCanvas_QMatrix L w _ _ _ _ _ _ 0 Y Hctm Hdet). cbn [mbind result_bind]. eauto. }
  destruct Hy as [sdy ->]. cbn [mbind result_bind].
  eexists. split; [reflexivity |].
  intros y. unfold forward. rewrite Hctm.
  unfold matrixTransform, QMatrix. cbn [ma mb mc md me mf px py].
  autorewrite with js. unfold same. field.
  repeat split; (assumption || nonzero_by Hdet).
Qed.

(** The moves of one pan, each a displacement of the pointer since the
    start of the drag. *)
Lemma pan_moves_linear (s : PanStart) (moves : list (number * number)) w :
  let w1 := foldl (fun w m => onPanMove s m.1 m.2 w) w moves in
  ma (transform w1) = ma (transform w) /\ mb (transform w1) = mb (transform w)
  /\ mc (transform w1) = mc (transform w) /\ md (transform w1) = md (transform w)
  /\ scale w1 = scale w.
Proof.
  revert w. induction moves as [| m moves IH]; intros w; cbn [foldl]; [done |].
  destruct (IH (onPanMove s m.1 m.2 w)) as (-> & -> & -> & -> & ->). done.
Qed.

(** X18.  A pan is measured from where the drag began: after any moves of
    the same drag, a move by [(dx, dy)] draws every point of the canvas
    where it was drawn when the drag began, displaced by [(dx, dy)] as the
    root maps it, whatever the zoom; and it keeps the scale. *)
Theorem pan_follows_pointer (moves : list (number * number)) w
    (a b c d e f ta tb tc td tx ty dx dy x y : Q) :
  rootCTM L = QMatrix a b c d e f ->
  transform w = QMatrix ta tb tc td tx ty ->
  let w' := onPanMove (onPanStart w) (Fin dx) (Fin dy)
              (foldl (fun w1 m => onPanMove (onPanStart w) m.1 m.2 w1) w moves) in
  scale w' = scale w
  /\ px (forward L w' (mkPoint (Fin x) (Fin y)))
       ≈ (px (forward L w (mkPoint (Fin x) (Fin y))) + Fin (a * dx + c * dy))%js
  /\ py (forward L w' (mkPoint (Fin x) (Fin y)))
       ≈ (py (forward L w (mkPoint (Fin x) (Fin y))) + Fin (b * dx + d * dy))%js.
Proof.
  intros HR HM w'.
  destruct (pan_moves_linear (onPanStart w) moves w) as (Ha & Hb & Hc & Hd & Hs).
  cbn zeta in Ha, Hb, Hc, Hd, Hs.
  assert (Ht : transform w' = QMatrix ta tb tc td (tx + dx) (ty + dy)).
  { unfold w'. set (w1 := foldl _ w moves) in *.
    unfold onPanMove, onPanStart. cbn [transform set_transform pan_x pan_y].
    rewrite Ha, Hb, Hc, Hd, HM. unfold QMatrix. cbn [ma mb mc md me mf].
    by autorewrite with js. }
  split; [exact Hs |].
  unfold forward, getScreenCTM. rewrite HR, Ht, HM.
  unfold multiply, matrixTransform, QMatrix. cbn [ma mb mc md me mf px py].
  autorewrite with js. unfold same. split; ring.
Qed.
End DragFacts.

(** X19.  [canDrawIn] is the guard of [fitToViewport]: in a root of which
    it says that one cannot draw in it, [fitToViewport] never returns; it
    raises its error, or the one of the inverse of a transform that has
    none. *)
Theorem fitToViewport_needs_canDrawIn {M : Type} (L : Layout) (w : Workflow M) :
  canDrawIn (rootRect L) = false ->
  fitToViewport L w = Throw InvalidStateError
  \/ exists message, fitToViewport L w = Throw (Error message).
Proof.
  unfold canDrawIn. intros Hz. apply negb_false_iff in Hz.
  unfold fitToViewport.
  destruct (scaleWorkflow L (Some (Fin 1)) None w) as [w1 | err] eqn:H1; cbn [mbind result_bind].
  - right. rewrite Hz. cbn [orb]. eauto.
  - left. by apply scaleWorkflow_1_throws in H1 as ->.
Qed.

Lemma fitToViewport_needs_canDrawIn_witness :
  fitToViewport (page (Fin 0) (Fin 600)) fresh = Throw InvalidStateError
  \/ exists message, fitToViewport (page (Fin 0) (Fin 600)) fresh = Throw (Error message).
Proof.
  apply (fitToViewport_needs_canDrawIn (page (Fin 0) (Fin 600)) fresh). reflexivity.
Defined.

Lemma pan_follows_pointer_witness :
  let w' := onPanMove (onPanStart zoomed) (Fin 30) (Fin (-10))
              (foldl (fun w1 m => onPanMove (onPanStart zoomed) m.1 m.2 w1) zoomed
                     [(Fin 5, Fin 5); (Fin 12, Fin 0)]) in
  scale w' = scale zoomed
  /\ px (forward (page (Fin 800) (Fin 600)) w' (mkPoint (Fin 100) (Fin 100)))
       ≈ (px (forward (page (Fin 800) (Fin 600)) zoomed (mkPoint (Fin 100) (Fin 100)))
          + Fin (1 * 30 + 0 * -10))%js
  /\ py (forward (page (Fin 800) (Fin 600)) w' (mkPoint (Fin 100) (Fin 100)))
       ≈ (py (forward (page (Fin 800) (Fin 600)) zoomed (mkPoint (Fin 100) (Fin 100)))
          + Fin (0 * 30 + 1 * -10))%js.
Proof.
  apply (pan_follows_pointer (page (Fin 800) (Fin 600)) [(Fin 5, Fin 5); (Fin 12, Fin 0)] zoomed
           1 0 0 1 0 0 0.5 0 0 0.5 50 50 30 (-10) 100 100); reflexivity.
Defined.

Lemma getScaledDeltaXYForDrag_holds_at_edge_witness :
  exists p,
    getScaledDeltaXYForDrag (page (Fin 800) (Fin 600)) (1%Z, 0%Z) (mkClient (Fin 790) (Fin 300))
      (Fin 20) (Fin 20) (Fin 770) (Fin 0) zoomed_dragging = Ok p
    /\ forall y : Q,
         px (forward (page (Fin 800) (Fin 600)) zoomed_dragging (mkPoint (Fin 20 + px p) (Fin y)))
           ≈ (right (QRect 0 0 800 600) - Fin 50)%js.
Proof.
  apply (getScaledDeltaXYForDrag_holds_at_edge (page (Fin 800) (Fin 600)) (1%Z, 0%Z)
           (mkClient (Fin 790) (Fin 300)) (Fin 20) (Fin 770) (Fin 0) zoomed_dragging
           1 1 0 0 0.5 50 50 0 0 800 600 50 20); try reflexivity; by vm_compute.
Defined.

(** ** Deleting the selection *)

Section DeletionFacts.
Context {M : Type} (L : Layout) (C : Collaborators M).
Implicit Type w : Workflow M.

Lemma activateSelection_emitted (el : Element) w :
  emitted (activateSelection el w)
  = emitted w ++ [("selectionChange", Selected None);
                  ("selectionChange", Selected (Some (uid el)))].
Proof.
  unfold activateSelection.
  cbn [emitted emit set_children set_workflowClass].
  destruct (deselectEverything_frame w) as (_ & -> & _).
  by rewrite <- app_assoc.
Qed.

(** A re-render emits nothing but the "selectionChange" of the selection
    that it restores. *)
Lemma renderModel_emits_selection (m : M) w w' :
  renderModel L C m w = Ok w' ->
  exists l, emitted w' = emitted w ++ l /\ Forall (fun ev => ev.1 = "selectionChange") l.
Proof.
  unfold renderModel. intros H.
  apply bind_Ok in H as (tpl & _ & H).
  apply bind_Ok in H as (w1 & H1 & H).
  apply bind_Ok in H as (w2 & H2 & H).
  injection H as <-. rewrite invokePlugins_emitted.
  apply redrawEdges_emitted in H1.
  cbn [emitted set_children set_transform set_model clearCanvas set_workflowClass] in H1.
  assert (He2 : emitted w2 = emitted w).
  { destruct tpl.2.
    - injection H2 as <-. exact H1.
    - apply scaleWorkflow_emitted in H2. rewrite H2. exact H1. }
  repeat case_match;
    first [ rewrite activateSelection_emitted, He2; eexists; split;
            [reflexivity | by repeat constructor]
          | exists []; rewrite app_nil_r, He2; by split ].
Qed.

Lemma deleteElement_emits_selection (el : Element) w w' :
  deleteElement L C el w = Ok w' ->
  exists l, emitted w' = emitted w ++ l /\ Forall (fun ev => ev.1 = "selectionChange") l.
Proof.
  unfold deleteElement. intros H.
  repeat case_match;
    try (apply renderModel_emits_selection in H; exact H).
  - apply bind_Ok in H as (sourceNode & _ & H).
    apply bind_Ok in H as (destinationNode & _ & H).
    apply renderModel_emits_selection in H. exact H.
  - injection H as <-. exists []. rewrite app_nil_r. by split.
Qed.

Lemma deleteElements_emits_selection (selection : list Element) : forall w w',
  deleteElements L C selection w = Ok w' ->
  exists l, emitted w' = emitted w ++ l /\ Forall (fun ev => ev.1 = "selectionChange") l.
Proof.
  induction selection as [| el els IH]; intros w w' H; cbn [deleteElements] in H.
  - injection H as <-. exists []. rewrite app_nil_r. by split.
  - apply bind_Ok in H as (w1 & H1 & H).
    apply deleteElement_emits_selection in H1 as (l1 & E1 & F1).
    apply IH in H as (l2 & E2 & F2).
    exists (l1 ++ l2). rewrite E2, E1, <- app_assoc. split; [done |].
    by apply Forall_app.
Qed.

(** X20.  Whatever is selected, steps, inputs and outputs included, a
    [deleteSelection] that returns has emitted "beforeChange" first and
    "selectionChange" with [null] and "afterChange" last, the two changes
    with the elements that were selected; in between, the re-renders emit
    nothing but "selectionChange". *)
Theorem deleteSelection_brackets w w' :
  querySelectorAll_class "selected" (children w) <> [] ->
  deleteSelection L C w = Ok w' ->
  exists between,
    emitted w' =
      emitted w
      ++ [("beforeChange",
           Change "deletion" (Some (map uid (querySelectorAll_class "selected" (children w)))))]
      ++ between
      ++ [("selectionChange", Selected None);
          ("afterChange",
           Change "deletion" (Some (map uid (querySelectorAll_class "selected" (children w)))))]
    /\ Forall (fun ev => ev.1 = "selectionChange") between.
Proof.
  intros Hsel H. unfold deleteSelection in H.
  destruct (querySelectorAll_class "selected" (children w)) as [| el els] eqn:Hq; [done |].
  cbn [length Nat.eqb] in H.
  apply bind_Ok in H as (w1 & H1 & H). injection H as <-.
  apply deleteElements_emits_selection in H1 as (l & E & F).
  exists l. split; [| exact F].
  cbn [emitted emit] in E |- *. rewrite E. by rewrite <- !app_assoc.
Qed.
End DeletionFacts.

Lemma deleteSelection_brackets_witness :
  exists w',
    deleteSelection (page (Fin 800) (Fin 600)) stepped step_selected = Ok w'
    /\ exists between,
         emitted w' =
           emitted step_selected
           ++ [("beforeChange",
                Change "deletion"
                  (Some (map uid (querySelectorAll_class "selected" (children step_selected)))))]
           ++ between
           ++ [("selectionChange", Selected None);
               ("afterChange",
                Change "deletion"
                  (Some (map uid (querySelectorAll_class "selected" (children step_selected)))))]
         /\ Forall (fun ev => ev.1 = "selectionChange") between.
Proof.
  eexists. split; [vm_compute; reflexivity |].
  apply (deleteSelection_brackets (page (Fin 800) (Fin 600)) stepped step_selected);
    [by vm_compute | vm_compute; reflexivity].
Defined.

(** ** The labels *)

(** X21.  Scaling by [k] rescales the labels of the nodes, and nothing else
    below the workflow, by a factor that makes them shrink or grow half as
    fast as the canvas: drawn at the scale [k], a label has the size
    [(1 + k) / 2] of its size at the scale 1. *)
Theorem scaleWorkflow_labels_halfway {M : Type} (L : Layout) (k : Q)
    (ev : option ClientPoint) (w w' : Workflow M) :
  ~ k == 0 ->
  scaleWorkflow L (Some (Fin k)) ev w = Ok w' ->
  exists labelScale : Q,
    children w' = scale_labels (Fin labelScale) (children w)
    /\ labelScale * k == (1 + k) / 2
    /\ forall c el, c ∈ children w' -> el ∈ nested c -> is_node_label c el = true ->
         ma (matrix el) = Fin labelScale /\ md (matrix el) = Fin labelScale.
Proof.
  intros Hk H. apply scaleWorkflow_children in H. cbn [from_option id] in H.
  assert (Hk2 : ~ k * 2 == 0).
  { intros E. apply Qmult_integral in E as [E | E]; [done | discriminate]. }
  rewrite jsub_Fin, jmul_Fin, (jdiv_Fin _ _ Hk2), jadd_Fin in H.
  eexists. split; [exact H |]. split; [field; done |].
  intros c el Hc Hel Hlabel. rewrite H in Hc. unfold scale_labels in Hc.
  apply list_elem_of_fmap in Hc as (c0 & -> & _).
  cbn [nested] in Hel. apply list_elem_of_fmap in Hel as (el0 & -> & _).
  unfold is_node_label in Hlabel. cbn [self] in Hlabel.
  unfold is_node_label in *.
  destruct (contains "node" (self c0) && contains "label" el0) eqn:E; [done |].
  apply andb_true_iff in Hlabel as [Hn Hl]. by rewrite Hn, Hl in E.
Qed.

Lemma scaleWorkflow_labels_halfway_witness :
  exists w',
    scaleWorkflow (page (Fin 800) (Fin 600)) (Some (Fin 0.5)) None labelled = Ok w'
    /\ exists labelScale : Q,
         children w' = scale_labels (Fin labelScale) (children labelled)
         /\ labelScale * 0.5 == (1 + 0.5) / 2
         /\ forall c el, c ∈ children w' -> el ∈ nested c -> is_node_label c el = true ->
              ma (matrix el) = Fin labelScale /\ md (matrix el) = Fin labelScale.
Proof.
  eexists. split; [vm_compute; reflexivity |].
  apply (scaleWorkflow_labels_halfway (page (Fin 800) (Fin 600)) 0.5 None labelled);
    [by vm_compute | vm_compute; reflexivity].
Defined.
